(** * snakemake/logging.py: the console logger and its colorizing writer

    A shallow embedding of [src/snakemake/logging.py].  Python values are
    embedded as a small universe of scalars, dictionaries whose order matters
    as association lists, floats as the IEEE-754 binary64 numbers of
    [SpecFloat], calls to the logging engine as a trace of (severity,
    message) pairs, and exceptions as an explicit outcome. *)

From Stdlib Require Import ZArith List String Ascii Bool Lia.
From Stdlib Require Import DecimalString.
From Stdlib Require Import QArith Qpower Lqa.
From Stdlib Require Import Floats.SpecFloat.
Import ListNotations.
Local Open Scope string_scope.
Local Open Scope Z_scope.

(** ** Python scalars and strings *)

Module Py.

(** The values the logger formats with [str] or tests for truth. *)
Inductive pyval : Type :=
| PyNone
| PyBool (b : bool)
| PyInt (z : Z)
| PyStr (s : string).

(** [str(int)]: decimal digits, with a leading minus sign. *)
Definition str_int (z : Z) : string :=
  NilZero.string_of_int (Z.to_int z).

(** [str(value)], which is also what ["{}".format(value)] produces. *)
Definition str (v : pyval) : string :=
  match v with
  | PyNone => "None"
  | PyBool true => "True"
  | PyBool false => "False"
  | PyInt z => str_int z
  | PyStr s => s
  end.

(** Truth value of an object in a condition. *)
Definition truthy (v : pyval) : bool :=
  match v with
  | PyNone => false
  | PyBool b => b
  | PyInt z => negb (z =? 0)
  | PyStr s => negb (s =? "")%string
  end.

(** [a == b]; [bool] is a subclass of [int], so [True == 1]. *)
Definition eqb (a b : pyval) : bool :=
  match a, b with
  | PyNone, PyNone => true
  | PyBool x, PyBool y => Bool.eqb x y
  | PyBool x, PyInt y => (if x then 1 else 0) =? y
  | PyInt x, PyBool y => x =? (if y then 1 else 0)
  | PyInt x, PyInt y => x =? y
  | PyStr x, PyStr y => (x =? y)%string
  | _, _ => false
  end.

(** [a != b] *)
Definition neb (a b : pyval) : bool := negb (eqb a b).

(** [a is not None] *)
Definition is_not_None (v : pyval) : bool :=
  match v with PyNone => false | _ => true end.

(** [sep.join(items)] *)
Definition join (sep : string) (items : list string) : string :=
  String.concat sep items.

(** [name in names] for a list of strings. *)
Definition str_in (name : string) (names : list string) : bool :=
  existsb (String.eqb name) names.

(** ["a b".split()] on the two literals the module splits. *)
Definition omit_resources_default : list string := ["_cores"; "_nodes"].

End Py.

(** ** Resource formatting *)

Module Resources.
Import Py.

(** A resources mapping, in insertion order ([dict.items()]). *)
Definition resources := list (string * pyval).

(** The generator's element: ["{}={}".format(name, value)]. *)
Definition format_pair (item : string * pyval) : string :=
  fst item ++ "=" ++ str (snd item).

(** The generator's filter: [name not in omit_resources]. *)
Definition kept (omit : list string) (item : string * pyval) : bool :=
  negb (str_in (fst item) omit).

(** [format_resources(resources, omit_resources)] *)
Definition format_resources_with (omit : list string) (r : resources) : string :=
  join ", " (map format_pair (filter (kept omit) r)).

(** [format_resources(resources)] with the default [omit_resources]. *)
Definition format_resources (r : resources) : string :=
  format_resources_with omit_resources_default r.

(** [format_resource_names(resources)]: names only, same filter. *)
Definition format_resource_names (r : resources) : string :=
  join ", " (filter (fun n => negb (str_in n omit_resources_default)) (map fst r)).

(** The specification's words, to compare [format_resources] with: the
    entries whose key is neither [_cores] nor [_nodes], each as
    [name=value], in the order of the mapping. *)
Fixpoint visible_pairs (r : resources) : list string :=
  match r with
  | [] => []
  | (name, value) :: rest =>
      if (name =? "_cores")%string || (name =? "_nodes")%string
      then visible_pairs rest
      else (name ++ "=" ++ str value) :: visible_pairs rest
  end.

(** Joined by a comma and a space; nothing yields the empty string. *)
Fixpoint comma_joined (items : list string) : string :=
  match items with
  | [] => ""
  | [x] => x
  | x :: rest => x ++ ", " ++ comma_joined rest
  end.

Definition format_resources_spec (r : resources) : string :=
  comma_joined (visible_pairs r).

(** Every key of [r] is [_cores] or [_nodes]. *)
Definition all_internal (r : resources) : bool :=
  forallb (fun item : string * pyval =>
             (fst item =? "_cores")%string || (fst item =? "_nodes")%string) r.

End Resources.

(** ** Exceptions *)

Module Exn.

(** The built-in exception classes the module can meet. *)
Inductive builtin : Type :=
| BaseException | Exception
| KeyboardInterrupt | SystemExit | GeneratorExit
| ArithmeticError | ZeroDivisionError | OverflowError
| AttributeError | LookupError | KeyError | TypeError | ValueError
| OSError | ConnectionError | BrokenPipeError.

(** Proper ancestors of a built-in class, nearest first. *)
Definition builtin_bases (b : builtin) : list builtin :=
  match b with
  | BaseException => []
  | Exception | KeyboardInterrupt | SystemExit | GeneratorExit => [BaseException]
  | ArithmeticError | AttributeError | LookupError | TypeError | ValueError
  | OSError => [Exception; BaseException]
  | ZeroDivisionError | OverflowError => [ArithmeticError; Exception; BaseException]
  | KeyError => [LookupError; Exception; BaseException]
  | ConnectionError => [OSError; Exception; BaseException]
  | BrokenPipeError => [ConnectionError; OSError; Exception; BaseException]
  end.

(** An exception class: built in, or defined by a [class] statement with
    its bases, of which Python allows several.  A class without bases
    derives from [object] alone; it is no exception class. *)
#[warnings="-register-all"]
Inductive pyclass : Type :=
| Builtin (b : builtin)
| Derived (name : string) (bases : list pyclass).

Definition builtin_eqb (a b : builtin) : bool :=
  match a, b with
  | BaseException, BaseException | Exception, Exception
  | KeyboardInterrupt, KeyboardInterrupt | SystemExit, SystemExit
  | GeneratorExit, GeneratorExit | ArithmeticError, ArithmeticError
  | ZeroDivisionError, ZeroDivisionError | OverflowError, OverflowError
  | AttributeError, AttributeError | LookupError, LookupError
  | KeyError, KeyError | TypeError, TypeError | ValueError, ValueError
  | OSError, OSError | ConnectionError, ConnectionError
  | BrokenPipeError, BrokenPipeError => true
  | _, _ => false
  end.

Fixpoint class_eqb (a b : pyclass) : bool :=
  match a, b with
  | Builtin x, Builtin y => builtin_eqb x y
  | Derived n xs, Derived m ys =>
      (n =? m)%string
      && (fix all2 (xs ys : list pyclass) : bool :=
            match xs, ys with
            | [], [] => true
            | x :: xs', y :: ys' => class_eqb x y && all2 xs' ys'
            | _, _ => false
            end) xs ys
  | _, _ => false
  end.

(** The class and all its ancestors, the members of its method
    resolution order.  An ancestor reached on two paths is listed twice;
    [isinstance] asks for membership only. *)
Fixpoint ancestors (c : pyclass) : list pyclass :=
  match c with
  | Builtin b => map Builtin (b :: builtin_bases b)
  | Derived _ bases => c :: flat_map ancestors bases
  end.


(** A raised exception is identified by its class. *)
Definition exn := pyclass.

(** [isinstance(e, c)], the test an [except c:] clause makes. *)
Definition isinstance (e : exn) (c : pyclass) : bool :=
  existsb (class_eqb c) (ancestors e).

(** How a call ends. *)
Inductive outcome (A : Type) : Type :=
| Returned (a : A)
| Raised (e : exn).
Arguments Returned {A} a.
Arguments Raised {A} e.

End Exn.

(** ** A writer-and-exception monad for effectful code

    A computation yields the effects it performed, in order, and how it
    ended; effects performed before an exception are kept. *)

Module Eff.
Import Exn.

Definition M (W A : Type) : Type := (list W * outcome A)%type.

Definition ret {W A} (a : A) : M W A := ([], Returned a).

Definition bind {W A B} (m : M W A) (f : A -> M W B) : M W B :=
  match snd m with
  | Returned a => ((fst m ++ fst (f a))%list, snd (f a))
  | Raised e => (fst m, Raised e)
  end.

Definition tell {W} (w : W) : M W unit := ([w], Returned tt).

Definition raise {W A} (e : exn) : M W A := ([], Raised e).

Definition lift {W A} (o : outcome A) : M W A := ([], o).

(** [try: body  except ...: handler e] *)
Definition try_except {W A} (body : M W A) (handler : exn -> M W A) : M W A :=
  match snd body with
  | Returned _ => body
  | Raised e => ((fst body ++ fst (handler e))%list, snd (handler e))
  end.

(** [try: body  finally: fin] where [fin] cannot fail. *)
Definition finally {W A} (body : M W A) (fin : list W) : M W A :=
  ((fst body ++ fin)%list, snd body).

Definition effects {W A} (m : M W A) : list W := fst m.
Definition result {W A} (m : M W A) : outcome A := snd m.

Declare Scope eff_scope.
Delimit Scope eff_scope with eff.
Notation "x <- m ;; k" := (bind m (fun x => k))
  (at level 61, m at next level, right associativity) : eff_scope.
Notation "m ;; k" := (bind m (fun _ => k))
  (at level 61, right associativity) : eff_scope.

End Eff.

(** ** Floats: IEEE-754 binary64, as CPython's [float] *)

Module Float.
Import Exn.

Definition prec : Z := 53.
Definition emax : Z := 1024.

Definition float := spec_float.

(** [float(z)] for an integer: the nearest double, ties to even. *)
Definition of_int (z : Z) : float := binary_normalize prec emax z 0 false.

(** An integer as a significand with exponent zero, not rounded. *)
Definition int_operand (z : Z) : float :=
  match z with
  | Z0 => S754_zero false
  | Zpos p => S754_finite false p 0
  | Zneg p => S754_finite true p 0
  end.

(** An integer that a double holds exactly: at most 53 bits. *)
Definition is_small (z : Z) : bool := Z.abs z <? 2 ^ 53.

(** [a / b] on two [int]s.  CPython raises [ZeroDivisionError] for
    [b == 0]; when both integers are small it converts them and divides
    the two doubles; otherwise it divides the integers themselves and
    rounds the quotient once; it raises [OverflowError] when the quotient
    is too large for a float. *)
Definition truediv (a b : Z) : outcome float :=
  if b =? 0 then Raised (Builtin ZeroDivisionError)
  else
    let quotient :=
      if is_small a && is_small b
      then SFdiv prec emax (of_int a) (of_int b)
      else SFdiv prec emax (int_operand a) (int_operand b) in
    match quotient with
    | S754_infinity _ => Raised (Builtin OverflowError)
    | q => Returned q
    end.

(** The double [100.0]. *)
Definition hundred : float := Eval cbv in of_int 100.

(** Nearest integer, ties to even, of [m * 2^e] for [m >= 0]. *)
Definition round_half_even (m e : Z) : Z :=
  if 0 <=? e then m * 2 ^ e
  else
    let d := 2 ^ (- e) in
    let q := m / d in
    match (2 * (m mod d)) ?= d with
    | Lt => q
    | Eq => if Z.even q then q else q + 1
    | Gt => q + 1
    end.

(** [format(x, ".0f")]: the correctly rounded decimal with no fractional
    digit; the sign of a negative number is kept even when it rounds to 0. *)
Definition format_f0 (x : float) : string :=
  match x with
  | S754_zero s => (if s then "-" else "") ++ "0"
  | S754_infinity s => (if s then "-" else "") ++ "inf"
  | S754_nan => "nan"
  | S754_finite s m e =>
      (if s then "-" else "") ++ Py.str_int (round_half_even (Zpos m) e)
  end.

(** [format(x, ".0%")]: the float is multiplied by [100.0] as a double,
    formatted with [".0f"], and a percent sign is appended. *)
Definition format_percent0 (x : float) : string :=
  format_f0 (SFmul prec emax x hundred) ++ "%".

(** The nearest integer, ties to even, of the exact ratio [n / d], [d > 0]:
    what [round] means for a number with zero decimal places. *)
Definition round_ratio_half_even (n d : Z) : Z :=
  let q := n / d in
  match (2 * (n mod d)) ?= d with
  | Lt => q
  | Eq => if Z.even q then q else q + 1
  | Gt => q + 1
  end.

(** The same with ties away from zero (school rounding), [n >= 0]. *)
Definition round_ratio_half_up (n d : Z) : Z :=
  let q := n / d in
  if 2 * (n mod d) <? d then q else q + 1.

(** The rational a float stands for (finite floats; zero otherwise). *)
Definition to_Q (x : float) : Q :=
  match x with
  | S754_finite s m e =>
      ((if s then -1 else 1) * inject_Z (Zpos m) * (2 # 1) ^ e)%Q
  | _ => 0%Q
  end.

(** [2^53]: the relative error of one rounding is at most its inverse. *)
Definition two53 : Q := inject_Z (2 ^ 53).

(** A positive double with a full mantissa, [m * 2^e] with
    [2^52 <= m < 2^53], and its exponent between [lo] and [hi]. *)
Definition normal_pos (x : float) (lo hi : Z) : Prop :=
  exists (m : positive) (e : Z),
    x = S754_finite false m e /\ 2 ^ 52 <= Zpos m < 2 ^ 53 /\ lo <= e <= hi.

(** The position of the number [N / D], counted in units of the last
    place, with respect to a shift record: at its mantissa [m], strictly
    between [m] and [m + 1/2], at [m + 1/2], or strictly between [m + 1/2]
    and [m + 1]. *)
Definition located (N D : Z) (mrs : shr_record) : Prop :=
  let h := 2 * shr_m mrs + Z.b2z (shr_r mrs) in
  if shr_s mrs then h * D < 2 * N < (h + 1) * D else 2 * N = h * D.

End Float.

(** ** The colorizing stream handler *)

Module Handler.
Import Py Exn Eff.
Local Open Scope eff_scope.

Definition TAB : string := String "009"%char EmptyString.
Definition NL : string := String "010"%char EmptyString.
Definition ESC : string := String "027"%char EmptyString.

(** [BLACK, RED, GREEN, YELLOW, BLUE, MAGENTA, CYAN, WHITE = range(8)] *)
Definition BLACK : Z := 0.
Definition RED : Z := 1.
Definition GREEN : Z := 2.
Definition YELLOW : Z := 3.
Definition BLUE : Z := 4.
Definition MAGENTA : Z := 5.
Definition CYAN : Z := 6.
Definition WHITE : Z := 7.

Definition RESET_SEQ : string := ESC ++ "[0m".
(** [COLOR_SEQ % n] *)
Definition COLOR_SEQ (n : Z) : string := ESC ++ "[" ++ str_int n ++ "m".
Definition BOLD_SEQ : string := ESC ++ "[1m".

(** The class attribute [colors], a dict from level names to colors. *)
Definition colors : list (string * Z) :=
  [("WARNING", YELLOW); ("INFO", GREEN); ("DEBUG", BLUE);
   ("CRITICAL", RED); ("ERROR", RED)].

(** Dictionary lookup by key. *)
Fixpoint lookup (key : string) (d : list (string * Z)) : option Z :=
  match d with
  | [] => None
  | (k, v) :: rest => if (k =? key)%string then Some v else lookup key rest
  end.

(** [key in d] *)
Definition contains (d : list (string * Z)) (key : string) : bool :=
  match lookup key d with Some _ => true | None => false end.

(** [d[key]], read only under a successful [key in d] test. *)
Definition subscript (d : list (string * Z)) (key : string) : Z :=
  match lookup key d with Some v => v | None => 0 end.

(** An output stream: [isatty] is [None] when the object has no such
    attribute, else what calling it returns. *)
Record Stream : Type := { isatty : option bool }.

(** A log record, after [format] has set [message]. *)
Record LogRecord : Type := { levelname : string; message : string }.

Record ColorizingStreamHandler : Type := {
  stream : Stream;
  nocolor : bool;
  timestamp : bool;
  terminator : string
}.

(** The property [is_tty]: [isatty and isatty()]. *)
Definition is_tty (s : Stream) : bool :=
  match isatty s with
  | None => false
  | Some b => b
  end.

(** [__init__(self, nocolor, stream, timestamp)]; [platform_system] is what
    [platform.system()] returns.  [logging.StreamHandler] sets the
    terminator to a newline. *)
Definition init (platform_system : string)
    (nocolor_arg : bool) (stream_arg : Stream) (timestamp_arg : bool)
    : ColorizingStreamHandler :=
  {| stream := stream_arg;
     nocolor := nocolor_arg || negb (is_tty stream_arg)
                || (platform_system =? "Windows")%string;
     timestamp := timestamp_arg;
     terminator := NL |}.

(** [decorate(self, record)]; [asctime] is what [time.asctime()] returns. *)
Definition decorate (self : ColorizingStreamHandler) (asctime : string)
    (record : LogRecord) : string :=
  let message := [message record] in
  let message :=
    if timestamp self then ("[" ++ asctime ++ "] ") :: message else message in
  let message :=
    if negb (nocolor self) && contains colors (levelname record)
    then (COLOR_SEQ (30 + subscript colors (levelname record))
            :: message ++ [RESET_SEQ])%list
    else message in
  join "" message.

(** What [emit] does to the world, in order. *)
Inductive io_event : Type :=
| Acquire                      (* the class-wide [_output_lock] is taken *)
| Format
| Write (text : string)        (* what a [stream.write] put on the stream *)
| Flush
| HandleError (report : string)
                               (* [self.handleError(record)] was called and
                                  wrote this to [sys.stderr] *)
| Release.

(** The operations of [emit] that can fail. *)
Inductive io_op : Type :=
| OpFormat | OpWriteMessage | OpWriteTerminator | OpFlush | OpHandleError.

(** What the environment does in a run: which operations fail, and with
    which exception; how many characters a failing [stream.write] had put
    on the stream when it raised; and what the inherited [handleError]
    writes to [sys.stderr], which is nothing when [logging.raiseExceptions]
    is off. *)
Record faults : Type := {
  fails :> io_op -> option exn;
  sent : io_op -> nat;
  report : string
}.

Definition no_fault : faults :=
  {| fails := fun _ => None; sent := fun _ => 0%nat; report := "" |}.

Definition io_op_eqb (a b : io_op) : bool :=
  match a, b with
  | OpFormat, OpFormat | OpWriteMessage, OpWriteMessage
  | OpWriteTerminator, OpWriteTerminator | OpFlush, OpFlush
  | OpHandleError, OpHandleError => true
  | _, _ => false
  end.

(** The environment in which one operation fails: a write that fails
    has sent nothing, and [handleError] reports nothing. *)
Definition failing (op : io_op) (e : exn) : faults :=
  {| fails := fun o => if io_op_eqb o op then Some e else None;
     sent := fun _ => 0%nat; report := "" |}.

(** [self.format(record)] and [self.flush()]: the operation raises when
    the environment says so, and otherwise leaves its event. *)
Definition perform (f : faults) (op : io_op) (ev : io_event) : M io_event unit :=
  match f op with
  | Some e => raise e
  | None => tell ev
  end.

(** [self.stream.write(text)]: a write that raises may have put a part of
    the text on the stream before. *)
Definition write (f : faults) (op : io_op) (text : string) : M io_event unit :=
  match f op with
  | Some e => tell (Write (substring 0 (sent f op) text)) ;; raise e
  | None => tell (Write text)
  end.

(** [self.handleError(record)], inherited from [logging.Handler]: it
    reports on [sys.stderr] and returns, unless it fails itself. *)
Definition handleError (f : faults) : M io_event unit :=
  tell (HandleError (report f)) ;;
  match f OpHandleError with
  | Some e => raise e
  | None => ret tt
  end.

(** The [except] clauses of [emit], in the order they are tried, with
    the call of [handleError] that the last one makes. *)
Definition emit_except (handle : M io_event unit) (e : exn) : M io_event unit :=
  if isinstance e (Builtin BrokenPipeError) then raise e
  else if isinstance e (Builtin KeyboardInterrupt)
          || isinstance e (Builtin SystemExit) then ret tt
  else if isinstance e (Builtin Exception) then handle
  else raise e.

(** The [try] block of [emit]. *)
Definition emit_try (f : faults) (self : ColorizingStreamHandler)
    (asctime : string) (record : LogRecord) : M io_event unit :=
  perform f OpFormat Format ;;
  write f OpWriteMessage (decorate self asctime record) ;;
  write f OpWriteTerminator (terminator self) ;;
  perform f OpFlush Flush.

(** [emit(self, record)] *)
Definition emit (f : faults) (self : ColorizingStreamHandler)
    (asctime : string) (record : LogRecord) : M io_event unit :=
  finally
    (tell Acquire ;;
     try_except (emit_try f self asctime record) (emit_except (handleError f)))
    [Release].

(** The events of the [try] block are formatting, writing and flushing. *)
Definition plain (ev : io_event) : Prop :=
  match ev with
  | Format | Write _ | Flush => True
  | Acquire | HandleError _ | Release => False
  end.

(** Was [handleError] called? *)
Definition handled (t : list io_event) : bool :=
  existsb (fun ev => match ev with HandleError _ => true | _ => false end) t.

(** The exception of the first operation of [emit] that fails, if any. *)
Definition first_fault (f : faults) : option exn :=
  match f OpFormat, f OpWriteMessage, f OpWriteTerminator, f OpFlush with
  | Some e, _, _, _ => Some e
  | None, Some e, _, _ => Some e
  | None, None, Some e, _ => Some e
  | None, None, None, r => r
  end.

(** The text the [stream.write] calls of a run put on the stream. *)
Fixpoint written (t : list io_event) : string :=
  match t with
  | [] => ""
  | Write s :: rest => s ++ written rest
  | _ :: rest => written rest
  end.

(** All that a run put on the handler's stream: when the stream is
    [sys.stderr], as it is by default, the reports of [handleError] come
    there too. *)
Fixpoint on_stream (is_stderr : bool) (t : list io_event) : string :=
  match t with
  | [] => ""
  | Write s :: rest => s ++ on_stream is_stderr rest
  | HandleError r :: rest =>
      (if is_stderr then r else "") ++ on_stream is_stderr rest
  | _ :: rest => on_stream is_stderr rest
  end.

End Handler.

(** ** The event logger and its default console handler *)

Module Logging.
Import Py Exn Eff Resources Handler.
Local Open Scope eff_scope.

(** Severities of the logging engine, with their numbers and names. *)
Inductive severity : Type := DEBUG | INFO | WARNING | ERROR | CRITICAL.

Definition levelno (s : severity) : Z :=
  match s with
  | DEBUG => 10 | INFO => 20 | WARNING => 30 | ERROR => 40 | CRITICAL => 50
  end.

Definition getLevelName (s : severity) : string :=
  match s with
  | DEBUG => "DEBUG" | INFO => "INFO" | WARNING => "WARNING"
  | ERROR => "ERROR" | CRITICAL => "CRITICAL"
  end.

(** A call on the engine's logger: [self.logger.info(text)] is
    [(INFO, text)]. *)
Definition logcall : Type := (severity * string)%type.

(** The keyword arguments of a [job_info] event. *)
Record job : Type := {
  name : pyval;
  local : pyval;
  input : list string;
  output : list string;
  log : pyval;
  reason : pyval;
  priority : pyval;
  threads : pyval;
  resources : Resources.resources;
  shellcmd : pyval;
  msg : pyval
}.

Section WithJson.

(** Opaque node and link descriptors, and [json.dumps] on the dictionary
    built from them, which returns a text or raises. *)
Variable pyobj : Type.
Variable json_dumps : list (string * pyobj) -> outcome string.

(** The message dictionaries, by their ["level"] entry. *)
Inductive event : Type :=
| info (text : string)
| debug (text : string)
| error (text : string)
| progress (done total : Z)
| resources_info (text : string)
| run_info (text : string)
| job_info (j : job)
| d3dag (nodes links : pyobj).

(** A custom handler, or [None] for the bound [console_handler]. *)
Record Logger : Type := {
  handler : option (event -> M logcall unit);
  stream_handler : option ColorizingStreamHandler;
  level : option severity;       (* the engine logger's level, when set *)
  quiet : option bool;           (* [None]: the attribute does not exist *)
  printshellcmds : bool;
  printreason : bool
}.

(** [Logger.__init__] *)
Definition Logger_init : Logger :=
  {| handler := None;
     stream_handler := None;
     level := None;
     quiet := None;
     printshellcmds := false;
     printreason := false |}.

(** [set_stream_handler]: the engine drops the previous handler and gets
    the new one, so it holds exactly [stream_handler]. *)
Definition set_stream_handler (self : Logger) (h : ColorizingStreamHandler) : Logger :=
  {| handler := handler self;
     stream_handler := Some h;
     level := level self;
     quiet := quiet self;
     printshellcmds := printshellcmds self;
     printreason := printreason self |}.

Definition set_level (self : Logger) (l : severity) : Logger :=
  {| handler := handler self;
     stream_handler := stream_handler self;
     level := Some l;
     quiet := quiet self;
     printshellcmds := printshellcmds self;
     printreason := printreason self |}.

(** [setup_logger(...)]; [stderr] and [stdout_stream] are [sys.stderr] and
    [sys.stdout]. *)
Definition setup_logger (logger : Logger) (platform_system : string)
    (stderr stdout_stream : Stream)
    (handler_arg : option (event -> M logcall unit))
    (quiet_arg printshellcmds_arg printreason_arg nocolor_arg stdout_arg
       debug_arg timestamp_arg : bool) : Logger :=
  let logger :=
    match handler_arg with
    | Some h =>
        {| handler := Some h;
           stream_handler := stream_handler logger;
           level := level logger;
           quiet := quiet logger;
           printshellcmds := printshellcmds logger;
           printreason := printreason logger |}
    | None => logger
    end in
  let sh := Handler.init platform_system nocolor_arg
              (if stdout_arg then stdout_stream else stderr) timestamp_arg in
  let logger := set_stream_handler logger sh in
  let logger := set_level logger (if debug_arg then DEBUG else INFO) in
  {| handler := handler logger;
     stream_handler := stream_handler logger;
     level := level logger;
     quiet := Some quiet_arg;
     printshellcmds := printshellcmds_arg;
     printreason := printreason_arg |}.

(** Reading [self.quiet]. *)
Definition get_quiet (self : Logger) : M logcall bool :=
  match quiet self with
  | Some q => ret q
  | None => raise (Builtin AttributeError)
  end.

(** [format_item(item, omit, valueformat)] of the nested [job_info]:
    [differs] is the test [value != omit]; [None] is the implicit result. *)
Definition format_item {V : Type} (item : string) (value : V)
    (differs : V -> bool) (valueformat : V -> string) : option string :=
  if differs value
  then Some (TAB ++ item ++ ": " ++ valueformat value)
  else None.

(** [if fmt != None: yield fmt] *)
Definition yield_some (fmt : option string) : list string :=
  match fmt with
  | Some line => [line]
  | None => []
  end.

(** [value != []] *)
Definition nonempty (l : list string) : bool :=
  match l with [] => false | _ => true end.

(** The lines the nested generator [job_info(msg)] yields. *)
Definition job_info_lines (self : Logger) (j : job) : list string :=
  let header :=
    (if truthy (local j) then "local" else "") ++ "rule " ++ str (name j) ++ ":" in
  let lists :=
    flat_map (fun item : string * list string =>
                yield_some (format_item (fst item) (snd item) nonempty (join ", ")))
             [("input", input j); ("output", output j)] in
  let singleitems :=
    ([("log", log j)] ++ (if printreason self then [("reason", reason j)] else []))%list in
  let singles :=
    flat_map (fun item : string * pyval =>
                yield_some (format_item (fst item) (snd item)
                              (fun v => neb v PyNone) str))
             singleitems in
  let numbers :=
    flat_map (fun item : string * pyval * pyval =>
                yield_some (format_item (fst (fst item)) (snd (fst item))
                              (fun v => neb v (snd item)) str))
             [("priority", priority j, PyInt 0); ("threads", threads j, PyInt 1)] in
  let res := format_resources (resources j) in
  let resource_lines :=
    if negb (res =? "")%string then [TAB ++ "resources: " ++ res] else [] in
  (header :: lists ++ singles ++ numbers ++ resource_lines)%list.

(** Is there a detail line for [item], a line that starts with a tab,
    the item's name, a colon and a space? *)
Definition has_line (item : string) (lines : list string) : bool :=
  existsb (String.prefix (TAB ++ item ++ ": ")) lines.

(** The text of a progress line:
    ["{} of {} steps ({:.0%}) done".format(done, total, done / total)]. *)
Definition progress_text (done total : Z) : outcome string :=
  match Float.truediv done total with
  | Returned ratio =>
      Returned (str_int done ++ " of " ++ str_int total ++ " steps ("
                ++ Float.format_percent0 ratio ++ ") done")
  | Raised e => Raised e
  end.

(** [console_handler(self, msg)] *)
Definition console_handler (self : Logger) (m : event) : M logcall unit :=
  match m with
  | info text => tell (WARNING, text)
  | error text => tell (ERROR, text)
  | debug text => tell (DEBUG, text)
  | resources_info text => tell (WARNING, text)
  | run_info text => tell (WARNING, text)
  | progress done total =>
      q <- get_quiet self ;;
      if negb q then
        text <- lift (progress_text done total) ;;
        tell (INFO, text)
      else ret tt
  | job_info j =>
      q <- get_quiet self ;;
      (if negb q then
         if is_not_None (msg j) then tell (INFO, str (msg j))
         else tell (INFO, join NL (job_info_lines self j))
       else ret tt) ;;
      if printshellcmds self && truthy (shellcmd j)
      then tell (INFO, str (shellcmd j))
      else ret tt
  | d3dag nodes links =>
      _ <- lift (json_dumps [("nodes", nodes); ("links", links)]) ;;
      ret tt
  end.

(** The methods of [Logger]: each hands its dictionary to [self.handler]. *)
Definition handle (self : Logger) (m : event) : M logcall unit :=
  match handler self with
  | Some h => h m
  | None => console_handler self m
  end.

(** The engine's threshold: the logger's level, or the root logger's
    default [WARNING] while none is set. *)
Definition effective_level (self : Logger) : severity :=
  match level self with
  | Some l => l
  | None => WARNING
  end.

(** [isEnabledFor]: a call reaches the handlers when its severity is at
    least the threshold. *)
Definition enabled (self : Logger) (c : logcall) : bool :=
  levelno (effective_level self) <=? levelno (fst c).

(** The engine turns an enabled call into a record for the stream handler. *)
Definition make_record (c : logcall) : LogRecord :=
  {| levelname := getLevelName (fst c); message := snd c |}.

(** What the calls of one event put on the stream, with a stream that
    never fails.  While the logger has no stream handler (and nobody gave
    one to the root logger) the engine falls back on its handler of last
    resort, which writes the bare message and a newline to [sys.stderr]
    for a call at [WARNING] or above. *)
Definition render (self : Logger) (asctime : string) (calls : list logcall) : string :=
  match stream_handler self with
  | None =>
      String.concat ""
        (map (fun c => snd c ++ NL)
             (filter (fun c => levelno WARNING <=? levelno (fst c))
                     (filter (enabled self) calls)))
  | Some h =>
      String.concat ""
        (map (fun c => written (effects (emit no_fault h asctime (make_record c))))
             (filter (enabled self) calls))
  end.

End WithJson.

Arguments info {pyobj} text.
Arguments debug {pyobj} text.
Arguments error {pyobj} text.
Arguments progress {pyobj} done total.
Arguments resources_info {pyobj} text.
Arguments run_info {pyobj} text.
Arguments job_info {pyobj} j.
Arguments d3dag {pyobj} nodes links.
Arguments Logger_init {pyobj}.
Arguments handler {pyobj} l.
Arguments stream_handler {pyobj} l.
Arguments level {pyobj} l.
Arguments quiet {pyobj} l.
Arguments printshellcmds {pyobj} l.
Arguments printreason {pyobj} l.
Arguments set_stream_handler {pyobj} self h.
Arguments set_level {pyobj} self l.
Arguments setup_logger {pyobj} logger platform_system stderr stdout_stream
  handler_arg quiet_arg printshellcmds_arg printreason_arg nocolor_arg
  stdout_arg debug_arg timestamp_arg.
Arguments get_quiet {pyobj} self.
Arguments job_info_lines {pyobj} self j.
Arguments console_handler {pyobj} json_dumps self m.
Arguments handle {pyobj} json_dumps self m.
Arguments effective_level {pyobj} self.
Arguments enabled {pyobj} self c.
Arguments render {pyobj} self asctime calls.

End Logging.

(** ** Concurrent emissions

    Threads of one process call [emit] on handlers that write to the same
    stream.  [_output_lock] is a class attribute, created once when the
    class body runs: every instance reaches the same lock, so the world has
    one lock, not one per handler.  A thread advances by atomic steps no
    coarser than one character written; the scheduler picks the thread that
    moves and whether its operation fails.  The stream of the world holds
    what the [stream.write] calls of the emissions put there; a report of
    [handleError] goes to [sys.stderr], from the thread that holds the
    lock, and is not recorded. *)

Module Threads.
Import Py Exn Eff Handler.

(** One call [h.emit(record)], with the clock it reads. *)
Record emission : Type := {
  em_handler : ColorizingStreamHandler;
  em_asctime : string;
  em_record : LogRecord
}.

(** The two [stream.write] arguments of an emission. *)
Definition first_write (em : emission) : string :=
  decorate (em_handler em) (em_asctime em) (em_record em).
Definition second_write (em : emission) : string :=
  terminator (em_handler em).
Definition full_text (em : emission) : string :=
  first_write em ++ second_write em.

(** Where a thread stands in [emit]. *)
Inductive pc : Type :=
| Outside                                       (* before [with _output_lock] *)
| AtFormat                                      (* lock held *)
| Writing (rest : string) (pending : list string)
| AtFlush
| Leaving (raised : option exn).                (* at the [except] clauses, about
                                                   to leave the [with] *)

Record thread : Type := {
  at_pc : pc;
  todo : list emission;      (* the emissions still to make, in order *)
  seq : nat                  (* how many emissions the thread has left behind *)
}.

(** An emission is named by its thread and its rank in that thread. *)
Definition tag : Type := (nat * nat)%type.

Record world : Type := {
  lock : option nat;                 (* the holder of [_output_lock] *)
  out : list (tag * ascii);          (* the stream, each character with its writer *)
  flushed : list tag;                (* the emissions whose [flush] is done, oldest first *)
  threads : nat -> thread
}.

Definition set_thread (ts : nat -> thread) (i : nat) (t : thread) : nat -> thread :=
  fun j => if Nat.eqb j i then t else ts j.

(** Does [emit] let the exception escape to its caller?  [failing] is the
    exception [handleError] raises, if it is called and fails. *)
Definition escapes (failing : option exn) (e : exn) : bool :=
  match result (emit_except
                  (lift match failing with
                        | Some e' => Raised e'
                        | None => Returned tt
                        end) e) with
  | Raised _ => true
  | Returned _ => false
  end.

(** A scheduler decision: the thread to move, and the exception its
    operation raises, if any. *)
Definition choice : Type := (nat * option exn)%type.

(** A change of program counter inside [emit], nothing else. *)
Definition move (w : world) (i : nat) (p : pc) : world :=
  {| lock := lock w; out := out w; flushed := flushed w;
     threads := set_thread (threads w) i
                  {| at_pc := p; todo := todo (threads w i);
                     seq := seq (threads w i) |} |}.

(** Entering [with self._output_lock] when the lock is free. *)
Definition acquire (w : world) (i : nat) : world :=
  {| lock := Some i; out := out w; flushed := flushed w;
     threads := set_thread (threads w) i
                  {| at_pc := AtFormat; todo := todo (threads w i);
                     seq := seq (threads w i) |} |}.

(** One character of a [stream.write] reaches the stream. *)
Definition write_char (w : world) (i : nat) (ch : ascii) (rest : string)
    (pending : list string) : world :=
  {| lock := lock w;
     out := (out w ++ [((i, seq (threads w i)), ch)])%list;
     flushed := flushed w;
     threads := set_thread (threads w) i
                  {| at_pc := Writing rest pending;
                     todo := todo (threads w i);
                     seq := seq (threads w i) |} |}.

(** [self.flush()] returns: the emission is flushed. *)
Definition flush (w : world) (i : nat) : world :=
  {| lock := lock w; out := out w;
     flushed := (flushed w ++ [(i, seq (threads w i))])%list;
     threads := set_thread (threads w) i
                  {| at_pc := Leaving None;
                     todo := todo (threads w i);
                     seq := seq (threads w i) |} |}.

(** Leaving the [with] block, through the [except] clauses when an
    operation raised: the lock is released; the thread goes on with its
    next emission, unless an exception escaped [emit].  [failing] is the
    exception of [handleError], if it is called and fails. *)
Definition release (w : world) (i : nat) (raised failing : option exn) : world :=
  {| lock := None; out := out w; flushed := flushed w;
     threads := set_thread (threads w) i
                  {| at_pc := Outside;
                     todo := match raised with
                             | Some e => if escapes failing e then []
                                         else tl (todo (threads w i))
                             | None => tl (todo (threads w i))
                             end;
                     seq := S (seq (threads w i)) |} |}.

(** One step of thread [fst c]; a step that is not possible (nothing to
    emit, lock taken) leaves the world as it is. *)
Definition step (c : choice) (w : world) : world :=
  let i := fst c in
  match at_pc (threads w i) with
  | Outside =>
      match todo (threads w i), lock w with
      | _ :: _, None => acquire w i
      | _, _ => w
      end
  | AtFormat =>
      match snd c, todo (threads w i) with
      | Some e, _ => move w i (Leaving (Some e))
      | None, em :: _ => move w i (Writing (first_write em) [second_write em])
      | None, [] => move w i (Leaving None)
      end
  | Writing rest pending =>
      match snd c with
      | Some e => move w i (Leaving (Some e))
      | None =>
          match rest, pending with
          | String ch rest', _ => write_char w i ch rest' pending
          | EmptyString, next :: pending' => move w i (Writing next pending')
          | EmptyString, [] => move w i AtFlush
          end
      end
  | AtFlush =>
      match snd c with
      | Some e => move w i (Leaving (Some e))
      | None => flush w i
      end
  | Leaving raised => release w i raised (snd c)
  end.

(** A run under a schedule, oldest decision first. *)
Definition run (schedule : list choice) (w : world) : world :=
  fold_left (fun w c => step c w) schedule w.

(** Every thread outside [emit], the lock free, nothing written. *)
Definition start (prog : nat -> list emission) : world :=
  {| lock := None; out := []; flushed := [];
     threads := fun i => {| at_pc := Outside; todo := prog i; seq := 0 |} |}.

(** The characters of one block of the stream. *)
Definition block (b : tag * string) : list (tag * ascii) :=
  map (pair (fst b)) (list_ascii_of_string (snd b)).

(** A decision, or a whole schedule, in which no operation fails. *)
Definition nofault (c : choice) : bool :=
  match snd c with None => true | Some _ => false end.

Definition fault_free (schedule : list choice) : bool :=
  forallb nofault schedule.

(** The text of the stream, without the writers. *)
Definition out_text (w : world) : string :=
  string_of_list_ascii (map snd (out w)).

(** Is the thread inside the [with] block? *)
Definition inside (p : pc) : bool :=
  match p with Outside => false | _ => true end.

(** What the holder of the lock has written of its emission [em], by
    program counter; [ff] says that no operation has failed so far. *)
Definition cur_ok (ff : bool) (p : pc) (em : emission) (cur : string) : Prop :=
  match p with
  | Outside => True
  | AtFormat => cur = ""
  | Writing rest pending => cur ++ rest ++ String.concat "" pending = full_text em
  | AtFlush => cur = full_text em
  | Leaving r =>
      (exists rest, full_text em = cur ++ rest)
      /\ (r = None -> cur = full_text em)
      /\ (ff = true -> r = None)
  end.

(** The invariant of a run: the stream is the blocks [past] of the
    emissions left behind, then what the holder of the lock has written. *)
Record Inv (prog : nat -> list emission) (ff : bool) (w : world)
    (past : list (tag * string)) (cur : string) : Prop := {
  inv_out :
    out w = (flat_map block past
             ++ match lock w with
                | Some i => block ((i, seq (threads w i)), cur)
                | None => []
                end)%list;
  inv_past :
    forall i n s, In ((i, n), s) past ->
      (n < seq (threads w i))%nat
      /\ exists em, nth_error (prog i) n = Some em
                    /\ (exists rest, full_text em = s ++ rest)
                    /\ (ff = true -> s = full_text em);
  inv_nodup : NoDup (map fst past);
  inv_todo :
    forall i, todo (threads w i) = []
              \/ todo (threads w i) = skipn (seq (threads w i)) (prog i);
  inv_pc :
    forall i,
      if inside (at_pc (threads w i))
      then lock w = Some i
           /\ exists em rest, todo (threads w i) = em :: rest
                              /\ cur_ok ff (at_pc (threads w i)) em cur
      else lock w <> Some i
}.

(** What thread [i] sees of the world: the lock, the stream, the flushes
    and its own state. *)
Definition sees (w : world) (i : nat) (l : option nat)
    (o : list (tag * ascii)) (fl : list tag) (t : thread) : Prop :=
  lock w = l /\ out w = o /\ flushed w = fl /\ threads w i = t.

(** The invariant of the flushes: every emission left behind has its
    block; an emission is flushed only when its whole text is on the
    stream, before it gives the lock back; and while no operation has
    failed, every emission left behind is flushed. *)
Record Flushes (prog : nat -> list emission) (ff : bool) (w : world)
    (past : list (tag * string)) : Prop := {
  fl_done :
    forall i n, (n < seq (threads w i))%nat -> exists s, In ((i, n), s) past;
  fl_whole :
    forall i n, In (i, n) (flushed w) ->
      ((n < seq (threads w i))%nat
       /\ exists em, nth_error (prog i) n = Some em
                     /\ In ((i, n), full_text em) past)
      \/ (n = seq (threads w i) /\ at_pc (threads w i) = Leaving None);
  fl_all :
    ff = true ->
    forall i n, (n < seq (threads w i))%nat -> In (i, n) (flushed w);
  fl_leaving :
    ff = true ->
    forall i r, at_pc (threads w i) = Leaving r ->
                In (i, seq (threads w i)) (flushed w)
}.

End Threads.

(** ** Further definitions for the properties of the code

    Predicates and totals used to state what the functions above do on
    their edges and how they compose. *)

Module More.
Import Py Exn Eff Resources Handler Logging.

(** The names [format_resource_names] keeps, in the order of the mapping. *)
Fixpoint visible_names (r : Resources.resources) : list string :=
  match r with
  | [] => []
  | (name, _) :: rest =>
      if (name =? "_cores")%string || (name =? "_nodes")%string
      then visible_names rest
      else name :: visible_names rest
  end.

(** Does the character occur in the text? *)
Fixpoint occurs (c : ascii) (s : string) : bool :=
  match s with
  | EmptyString => false
  | String x rest => Ascii.eqb c x || occurs c rest
  end.

(** The escape character that starts every ANSI sequence. *)
Definition ESC_char : ascii := "027"%char.

(** The handler with its colour switched off. *)
Definition without_color (self : ColorizingStreamHandler) : ColorizingStreamHandler :=
  {| stream := stream self; nocolor := true;
     timestamp := timestamp self; terminator := terminator self |}.

(** The state of [_output_lock] after a trace, from the state before it:
    [None] when the trace takes a lock that is held (the lock is not
    reentrant: the thread would wait for itself) or releases a free one. *)
Fixpoint lock_after (held : bool) (t : list io_event) : option bool :=
  match t with
  | [] => Some held
  | Acquire :: rest => if held then None else lock_after true rest
  | Release :: rest => if held then lock_after false rest else None
  | _ :: rest => lock_after held rest
  end.

(** One call of [emit], with the failures of its run. *)
Record emit_call : Type := {
  call_faults : faults;
  call_handler : ColorizingStreamHandler;
  call_asctime : string;
  call_record : LogRecord
}.

Definition run_call (c : emit_call) : M io_event unit :=
  emit (call_faults c) (call_handler c) (call_asctime c) (call_record c).

(** The number of lines of a job summary, from its conditions. *)
Definition count (b : bool) : nat := if b then 1%nat else 0%nat.

(** A line that is there under a condition. *)
Definition line_if (b : bool) (line : string) : list string :=
  if b then [line] else [].

(** The header of a job summary, and a detail line. *)
Definition header_of (j : job) : string :=
  (if truthy (local j) then "local" else "") ++ "rule " ++ str (name j) ++ ":".

Definition detail (item text : string) : string :=
  TAB ++ item ++ ": " ++ text.

End More.

(** ** Keyword arguments and their keys

    [Logger.job_info] passes on whatever keywords it was given, and
    the console handler reads keys as it goes: a key that is not there
    raises [KeyError] when it is read.  A value, when present, has the type
    of the data model; [Logger.progress] takes any two values. *)

Module Kwargs.
Import Py Exn Eff Resources Handler Logging.
Local Open Scope eff_scope.

(** The dictionary of a [job_info] call: [None] is an absent key. *)
Record job_kwargs : Type := {
  kw_name : option pyval;
  kw_local : option pyval;
  kw_input : option (list string);
  kw_output : option (list string);
  kw_log : option pyval;
  kw_reason : option pyval;
  kw_priority : option pyval;
  kw_threads : option pyval;
  kw_resources : option Resources.resources;
  kw_shellcmd : option pyval;
  kw_msg : option pyval
}.

(** The dictionary in which every key is present. *)
Definition kwargs_of (j : job) : job_kwargs :=
  {| kw_name := Some (name j); kw_local := Some (local j);
     kw_input := Some (input j); kw_output := Some (output j);
     kw_log := Some (log j); kw_reason := Some (reason j);
     kw_priority := Some (priority j); kw_threads := Some (threads j);
     kw_resources := Some (resources j); kw_shellcmd := Some (shellcmd j);
     kw_msg := Some (msg j) |}.

(** [msg[key]] *)
Definition getitem {A : Type} (entry : option A) : M logcall A :=
  match entry with
  | Some v => ret v
  | None => raise (Builtin KeyError)
  end.

(** The nested generator [job_info(msg)], run to its end as [join] does:
    the keys are read in the order of the source. *)
Definition job_info_gen {pyobj : Type} (self : Logger pyobj) (kw : job_kwargs)
    : M logcall (list string) :=
  loc <- getitem (kw_local kw) ;;
  nm <- getitem (kw_name kw) ;;
  inp <- getitem (kw_input kw) ;;
  out <- getitem (kw_output kw) ;;
  lg <- getitem (kw_log kw) ;;
  reason_lines <-
    (if printreason self
     then rs <- getitem (kw_reason kw) ;;
          ret (yield_some (format_item "reason" rs (fun v => neb v PyNone) str))
     else ret []) ;;
  pr <- getitem (kw_priority kw) ;;
  th <- getitem (kw_threads kw) ;;
  res <- getitem (kw_resources kw) ;;
  let header :=
    (if truthy loc then "local" else "") ++ "rule " ++ str nm ++ ":" in
  let resource_lines :=
    if negb (format_resources res =? "")%string
    then [TAB ++ "resources: " ++ format_resources res] else [] in
  ret (header
         :: yield_some (format_item "input" inp nonempty (join ", "))
         ++ yield_some (format_item "output" out nonempty (join ", "))
         ++ yield_some (format_item "log" lg (fun v => neb v PyNone) str)
         ++ reason_lines
         ++ yield_some (format_item "priority" pr (fun v => neb v (PyInt 0)) str)
         ++ yield_some (format_item "threads" th (fun v => neb v (PyInt 1)) str)
         ++ resource_lines)%list.

(** The [job_info] branch of [console_handler] on such a dictionary. *)
Definition console_job_info {pyobj : Type} (self : Logger pyobj)
    (kw : job_kwargs) : M logcall unit :=
  q <- get_quiet self ;;
  (if negb q then
     m <- getitem (kw_msg kw) ;;
     if is_not_None m then tell (INFO, str m)
     else lines <- job_info_gen self kw ;;
          tell (INFO, join NL lines)
   else ret tt) ;;
  if printshellcmds self
  then sc <- getitem (kw_shellcmd kw) ;;
       if truthy sc then tell (INFO, str sc) else ret tt
  else ret tt.

(** Are the keys of the structured summary all there?  [reason] is read
    only under [printreason]. *)
Definition summary_keys_present {pyobj : Type} (self : Logger pyobj)
    (kw : job_kwargs) : bool :=
  match kw_local kw, kw_name kw, kw_input kw, kw_output kw, kw_log kw,
        kw_priority kw, kw_threads kw, kw_resources kw with
  | Some _, Some _, Some _, Some _, Some _, Some _, Some _, Some _ =>
      match kw_reason kw with
      | Some _ => true
      | None => negb (printreason self)
      end
  | _, _, _, _, _, _, _, _ => false
  end.

(** An [int], or a [bool] taken as one; nothing else divides. *)
Definition as_int (v : pyval) : option Z :=
  match v with
  | PyInt z => Some z
  | PyBool b => Some (if b then 1 else 0)
  | PyNone | PyStr _ => None
  end.

(** [done / total] on two values. *)
Definition truediv_val (a b : pyval) : outcome Float.float :=
  match as_int a, as_int b with
  | Some x, Some y => Float.truediv x y
  | _, _ => Raised (Builtin TypeError)
  end.

(** [Logger.progress(done, total)] with the console handler; both
    arguments default to [None]. *)
Definition Logger_progress {pyobj : Type} (self : Logger pyobj)
    (done total : pyval) : M logcall unit :=
  q <- get_quiet self ;;
  if negb q then
    text <- lift (match truediv_val done total with
                  | Returned ratio =>
                      Returned (str done ++ " of " ++ str total ++ " steps ("
                                ++ Float.format_percent0 ratio ++ ") done")
                  | Raised e => Raised e
                  end) ;;
    tell (INFO, text)
  else ret tt.

End Kwargs.

(** ** The engine's list of handlers

    [set_stream_handler] asks the engine's logger to drop the previous
    handler and to take the new one.  The logger keeps its handlers in a
    list; handlers are objects, named here by their identity. *)

Module Engine.

(** [list.remove]: the first occurrence goes. *)
Fixpoint remove_first (h : nat) (hs : list nat) : list nat :=
  match hs with
  | [] => []
  | x :: rest => if Nat.eqb h x then rest else x :: remove_first h rest
  end.

(** [Logger.removeHandler]: a handler that is not attached is ignored. *)
Definition removeHandler (hs : list nat) (h : nat) : list nat :=
  if existsb (Nat.eqb h) hs then remove_first h hs else hs.

(** [Logger.addHandler]: a handler is attached once. *)
Definition addHandler (hs : list nat) (h : nat) : list nat :=
  if existsb (Nat.eqb h) hs then hs else (hs ++ [h])%list.

(** The two attributes [set_stream_handler] works on. *)
Record attachment : Type := {
  engine_handlers : list nat;        (* [self.logger.handlers] *)
  current : option nat               (* [self.stream_handler] *)
}.

(** After [Logger.__init__], for a logger nobody has attached to. *)
Definition fresh : attachment := {| engine_handlers := []; current := None |}.

(** [set_stream_handler(self, stream_handler)] *)
Definition set_stream_handler (self : attachment) (h : nat) : attachment :=
  let hs :=
    match current self with
    | Some old => removeHandler (engine_handlers self) old
    | None => engine_handlers self
    end in
  {| engine_handlers := addHandler hs h; current := Some h |}.

(** The logger holds the current stream handler and nothing else. *)
Definition attached (self : attachment) : Prop :=
  engine_handlers self
  = match current self with
    | Some h => [h]
    | None => []
    end.

End Engine.

(** ** The way out of [emit]

    How many steps of its own a thread inside [emit] has before it leaves
    the [with] block, when nothing fails; a failure only shortens the way. *)

Module Liveness.
Import Handler Threads.

Definition pending_steps (pending : list string) : nat :=
  fold_right (fun text n => S (String.length text + n)) 0%nat pending.

Definition steps_left (t : thread) : nat :=
  match at_pc t with
  | Outside => 0
  | AtFormat =>
      match todo t with
      | em :: _ =>
          String.length (first_write em) + String.length (second_write em) + 5
      | [] => 2
      end
  | Writing rest pending => String.length rest + pending_steps pending + 3
  | AtFlush => 2
  | Leaving _ => 1
  end%nat.

(** The steps of one thread, with the failures of its operations. *)
Definition alone (i : nat) (fs : list (option Exn.exn)) : list choice :=
  map (pair i) fs.

End Liveness.

(** * Properties *)

(** ** Strings *)

Module StrFacts.

Lemma append_nil_r (s : string) : s ++ "" = s.
Proof. induction s as [|c s IH]; cbn; [reflexivity | now rewrite IH]. Qed.

Lemma append_assoc (a b c : string) : (a ++ b) ++ c = a ++ b ++ c.
Proof. induction a as [|x a IH]; cbn; [reflexivity | now rewrite IH]. Qed.

Lemma concat_empty_cons (x : string) (l : list string) :
  String.concat "" (x :: l) = x ++ String.concat "" l.
Proof. destruct l; cbn; [now rewrite append_nil_r | reflexivity]. Qed.

Lemma prefix_empty (s : string) : String.prefix "" s = true.
Proof. now destruct s. Qed.

Lemma length_append (a b : string) :
  String.length (a ++ b) = (String.length a + String.length b)%nat.
Proof. induction a as [|x a IH]; cbn; [reflexivity | now rewrite IH]. Qed.

End StrFacts.

(** ** Resource formatting *)

Module ResourcesFacts.
Import Py Resources.

Lemma join_comma_joined (items : list string) :
  join ", " items = comma_joined items.
Proof.
  unfold join.
  induction items as [|x rest IH]; [reflexivity|].
  destruct rest as [|y rest]; [reflexivity|].
  cbn [String.concat comma_joined] in *. now rewrite IH.
Qed.

Lemma kept_default (name : string) (value : pyval) :
  kept omit_resources_default (name, value)
  = negb ((name =? "_cores")%string || (name =? "_nodes")%string).
Proof.
  unfold kept, str_in, omit_resources_default. cbn [fst existsb].
  now rewrite orb_false_r.
Qed.

Lemma filter_map_visible (r : resources) :
  map format_pair (filter (kept omit_resources_default) r) = visible_pairs r.
Proof.
  induction r as [|[name value] rest IH]; [reflexivity|].
  cbn [filter visible_pairs]. rewrite kept_default.
  destruct ((name =? "_cores")%string || (name =? "_nodes")%string); cbn [negb].
  - exact IH.
  - cbn [map]. now rewrite IH.
Qed.

Lemma visible_pairs_nil (r : resources) :
  visible_pairs r = [] <-> all_internal r = true.
Proof.
  induction r as [|[name value] rest IH]; [easy|].
  cbn [visible_pairs all_internal forallb fst].
  destruct ((name =? "_cores")%string || (name =? "_nodes")%string); cbn [andb].
  - exact IH.
  - split; discriminate.
Qed.

Lemma append_eq_empty (a b : string) : a ++ b = "" -> a = "" /\ b = "".
Proof. destruct a; cbn; [auto | discriminate]. Qed.

Lemma comma_joined_pairs_empty (r : resources) :
  comma_joined (visible_pairs r) = "" -> visible_pairs r = [].
Proof.
  induction r as [|[name value] rest IH]; [reflexivity|].
  cbn [visible_pairs].
  destruct ((name =? "_cores")%string || (name =? "_nodes")%string); [exact IH|].
  intros H. exfalso. cbn [comma_joined] in H.
  destruct (visible_pairs rest).
  - apply append_eq_empty in H as [_ H]. discriminate.
  - apply append_eq_empty in H as [_ H]. discriminate.
Qed.

(** C6. [format_resources] returns the [name=value] pairs of the mapping,
    in its order and joined by a comma and a space, leaving out the keys
    [_cores] and [_nodes]; the result is the empty string exactly when no
    other key is present; and the mapping of the specification's example,
    [{"_cores": 4, "mem_mb": 100, "_nodes": 1}], yields ["mem_mb=100"]. *)
Theorem format_resources_correct :
  (forall r : resources, format_resources r = format_resources_spec r)
  /\ (forall r : resources, format_resources r = "" <-> all_internal r = true)
  /\ format_resources
       [("_cores", PyInt 4); ("mem_mb", PyInt 100); ("_nodes", PyInt 1)]
     = "mem_mb=100".
Proof.
  assert (E : forall r, format_resources r = format_resources_spec r).
  { intros r. unfold format_resources, format_resources_with, format_resources_spec.
    now rewrite join_comma_joined, filter_map_visible. }
  split; [exact E|]. split; [|reflexivity].
  intros r. rewrite E. unfold format_resources_spec. split.
  - intros H. now apply visible_pairs_nil, comma_joined_pairs_empty.
  - intros H. apply visible_pairs_nil in H. now rewrite H.
Qed.

End ResourcesFacts.

(** ** The stream handler *)

Module HandlerFacts.
Import Py Exn Eff Handler.



(** With several bases they do not: a class may be both. *)
Lemma interrupt_and_Exception :
  isinstance (Derived "Quit" [Builtin SystemExit; Builtin Exception])
    (Builtin SystemExit) = true
  /\ isinstance (Derived "Quit" [Builtin SystemExit; Builtin Exception])
       (Builtin Exception) = true.
Proof. split; reflexivity. Qed.

(** The [try] block stops at the first failing operation. *)
Lemma emit_try_outcome (f : faults) (self : ColorizingStreamHandler)
    (asctime : string) (record : LogRecord) :
  result (emit_try f self asctime record)
  = match first_fault f with
    | None => Returned tt
    | Some e => Raised e
    end
  /\ Forall plain (effects (emit_try f self asctime record)).
Proof.
  unfold emit_try, first_fault, perform, write, bind, tell, raise, result,
    effects.
  destruct (f OpFormat), (f OpWriteMessage), (f OpWriteTerminator), (f OpFlush);
    cbn; (split; [reflexivity | repeat constructor]).
Qed.



Lemma handled_In (t : list io_event) :
  handled t = true <-> exists r, In (HandleError r) t.
Proof.
  unfold handled. rewrite existsb_exists. split.
  - intros (ev & I & H). destruct ev; try discriminate. eauto.
  - intros (r & I). exists (HandleError r). auto.
Qed.

(** [emit] as a whole: the lock, the [try] block, the matching [except]
    clause, the release. *)
Lemma emit_unfold (f : faults) (self : ColorizingStreamHandler)
    (asctime : string) (record : LogRecord) :
  emit f self asctime record
  = match first_fault f with
    | None =>
        ((Acquire :: effects (emit_try f self asctime record) ++ [Release])%list,
         Returned tt)
    | Some e =>
        ((Acquire :: effects (emit_try f self asctime record)
            ++ effects (emit_except (handleError f) e) ++ [Release])%list,
         result (emit_except (handleError f) e))
    end.
Proof.
  destruct (emit_try_outcome f self asctime record) as [R _].
  unfold emit, finally, try_except, bind, tell, result, effects in *.
  destruct (emit_try f self asctime record) as [t r]. cbn [fst snd] in *.
  subst r. destruct (first_fault f) as [e|]; cbn [fst snd app]; [|reflexivity].
  now rewrite <- app_assoc.
Qed.

Lemma handleError_cases (f : faults) :
  handleError f
  = ([HandleError (report f)],
     match f OpHandleError with
     | Some e => Raised e
     | None => Returned tt
     end).
Proof. unfold handleError, bind, tell, raise, ret. now destruct (f OpHandleError). Qed.

Lemma emit_except_cases (handle : M io_event unit) (e : exn) :
  emit_except handle e
  = if isinstance e (Builtin BrokenPipeError) then ([], Raised e)
    else if isinstance e (Builtin KeyboardInterrupt)
            || isinstance e (Builtin SystemExit) then ([], Returned tt)
    else if isinstance e (Builtin Exception) then handle
    else ([], Raised e).
Proof. reflexivity. Qed.





(** Whatever happens, [emit] takes the lock first, releases it last, and
    does everything else in between. *)
Lemma emit_bracket (f : faults) (self : ColorizingStreamHandler)
    (asctime : string) (record : LogRecord) :
  exists inside : list io_event,
    effects (emit f self asctime record) = (Acquire :: inside ++ [Release])%list
    /\ ~ In Acquire inside /\ ~ In Release inside.
Proof.
  rewrite emit_unfold.
  destruct (emit_try_outcome f self asctime record) as [_ P].
  rewrite Forall_forall in P.
  destruct (first_fault f) as [e|].
  - exists (effects (emit_try f self asctime record)
            ++ effects (emit_except (handleError f) e))%list.
    unfold effects at 1. cbn [fst]. rewrite <- app_assoc. split; [reflexivity|].
    rewrite emit_except_cases, handleError_cases.
    split; intros H; apply in_app_or in H as [H|H];
      try (exact (P _ H));
      destruct (isinstance e (Builtin BrokenPipeError));
      destruct (isinstance e (Builtin KeyboardInterrupt)
                || isinstance e (Builtin SystemExit));
      destruct (isinstance e (Builtin Exception));
      cbn in H; intuition discriminate.
  - exists (effects (emit_try f self asctime record)).
    split; [reflexivity|]. split; intros H; exact (P _ H).
Qed.

(** A timestamp in front of the message when the handler has one. *)
Lemma decorate_cases (self : ColorizingStreamHandler) (asctime : string)
    (record : LogRecord) :
  decorate self asctime record
  = if negb (nocolor self) && contains colors (levelname record)
    then COLOR_SEQ (30 + subscript colors (levelname record))
         ++ (if timestamp self then "[" ++ asctime ++ "] " else "")
         ++ message record ++ RESET_SEQ
    else (if timestamp self then "[" ++ asctime ++ "] " else "")
         ++ message record.
Proof.
  unfold decorate, join.
  destruct (negb (nocolor self) && contains colors (levelname record)),
    (timestamp self); reflexivity.
Qed.

(** C7. A handler is built without colour exactly when the [nocolor]
    argument is set, or the stream is not a terminal (its [isatty] is
    missing or does not answer true), or the platform is Windows.  For a record whose level name is in the colour table and a
    handler with colour, [decorate] yields the sequence ESC [ (30 + colour) m,
    the timestamp prefix if any, the message, and the reset sequence
    ESC [ 0 m; otherwise it yields the timestamp prefix if any and the
    message.  The sequences of the five levels are spelled out. *)
Theorem coloring_and_decoration :
  (forall (platform_system : string) (nocolor_arg : bool) (s : Stream)
          (timestamp_arg : bool),
      nocolor (init platform_system nocolor_arg s timestamp_arg) = true
      <-> nocolor_arg = true \/ isatty s <> Some true
          \/ platform_system = "Windows")
  /\ (forall (self : ColorizingStreamHandler) (asctime : string)
             (record : LogRecord),
        decorate self asctime record
        = (if timestamp self then "[" ++ asctime ++ "] " else "")
          ++ message record
        \/ exists color : Z,
             nocolor self = false
             /\ lookup (levelname record) colors = Some color
             /\ decorate self asctime record
                = (ESC ++ "[" ++ str_int (30 + color) ++ "m")
                  ++ (if timestamp self then "[" ++ asctime ++ "] " else "")
                  ++ message record ++ (ESC ++ "[0m"))
  /\ (forall (self : ColorizingStreamHandler) (asctime : string)
             (record : LogRecord) (color : Z),
        nocolor self = false ->
        lookup (levelname record) colors = Some color ->
        decorate self asctime record
        = (ESC ++ "[" ++ str_int (30 + color) ++ "m")
          ++ (if timestamp self then "[" ++ asctime ++ "] " else "")
          ++ message record ++ (ESC ++ "[0m"))
  /\ (forall (self : ColorizingStreamHandler) (asctime : string)
             (record : LogRecord),
        nocolor self = true \/ lookup (levelname record) colors = None ->
        decorate self asctime record
        = (if timestamp self then "[" ++ asctime ++ "] " else "")
          ++ message record)
  /\ map (fun name => (name, option_map (fun c => COLOR_SEQ (30 + c))
                                        (lookup name colors)))
         ["WARNING"; "INFO"; "DEBUG"; "CRITICAL"; "ERROR"; "NOTSET"]
     = [("WARNING", Some (ESC ++ "[33m")); ("INFO", Some (ESC ++ "[32m"));
        ("DEBUG", Some (ESC ++ "[34m")); ("CRITICAL", Some (ESC ++ "[31m"));
        ("ERROR", Some (ESC ++ "[31m")); ("NOTSET", None)].
Proof.
  assert (Colored : forall self asctime record color,
             nocolor self = false ->
             lookup (levelname record) colors = Some color ->
             decorate self asctime record
             = (ESC ++ "[" ++ str_int (30 + color) ++ "m")
               ++ (if timestamp self then "[" ++ asctime ++ "] " else "")
               ++ message record ++ (ESC ++ "[0m")).
  { intros self asctime record color N L. rewrite decorate_cases.
    unfold contains, subscript. now rewrite N, L. }
  assert (Uncolored : forall self asctime record,
             nocolor self = true \/ lookup (levelname record) colors = None ->
             decorate self asctime record
             = (if timestamp self then "[" ++ asctime ++ "] " else "")
               ++ message record).
  { intros self asctime record H. rewrite decorate_cases. unfold contains.
    destruct H as [-> | ->]; [reflexivity | now rewrite andb_false_r]. }
  split; [|split; [|split; [exact Colored | split; [exact Uncolored | reflexivity]]]].
  - intros platform_system nocolor_arg s timestamp_arg. cbn [init nocolor].
    rewrite !orb_true_iff, negb_true_iff, String.eqb_eq. unfold is_tty.
    destruct (isatty s) as [[|]|]; intuition congruence.
  - intros self asctime record.
    destruct (nocolor self) eqn:N; [left; apply Uncolored; now left|].
    destruct (lookup (levelname record) colors) as [color|] eqn:L.
    + right. exists color. auto.
    + left. apply Uncolored. now right.
Qed.

End HandlerFacts.

(** ** The console handler *)

Module LoggingFacts.
Import Py Exn Eff Resources Handler Logging StrFacts.

Section WithJson.

Variable pyobj : Type.
Variable json_dumps : list (string * pyobj) -> outcome string.

(** C2. With [quiet] set, a [job_info] event emits neither the summary nor
    the [msg] override: the only call left is the shell command, at [INFO],
    when [printshellcmds] is set and [shellcmd] is not empty; and a
    [progress] event emits nothing. *)
Theorem quiet_suppresses (self : Logger pyobj) :
  quiet self = Some true ->
  (forall j : job,
      console_handler json_dumps self (job_info j)
      = (if printshellcmds self && truthy (shellcmd j)
         then [(INFO, str (shellcmd j))] else [],
         Returned tt))
  /\ (forall done total : Z,
        console_handler json_dumps self (progress done total) = ([], Returned tt)).
Proof.
  intros Q. split.
  - intros j. unfold console_handler, get_quiet, bind, ret, tell. rewrite Q.
    cbn. now destruct (printshellcmds self && truthy (shellcmd j)).
  - intros done total. unfold console_handler, get_quiet, bind, ret.
    now rewrite Q.
Qed.

(** C8. A [d3dag] event calls [json.dumps] on the dictionary of [nodes]
    and [links] and drops the text: no call reaches the logging engine,
    nothing is written to the stream, and the handler ends as [json.dumps]
    does. *)
Theorem d3dag_is_silent (self : Logger pyobj) (asctime : string)
    (nodes links : pyobj) :
  effects (console_handler json_dumps self (d3dag nodes links)) = []
  /\ render self asctime (effects (console_handler json_dumps self (d3dag nodes links))) = ""
  /\ result (console_handler json_dumps self (d3dag nodes links))
     = match json_dumps [("nodes", nodes); ("links", links)] with
       | Returned _ => Returned tt
       | Raised e => Raised e
       end.
Proof.
  unfold console_handler, bind, lift, ret, effects, result, render.
  destruct (json_dumps [("nodes", nodes); ("links", links)]); cbn;
    destruct (stream_handler self); auto.
Qed.

(** C10. [Logger.__init__] leaves [quiet] unset, and so do
    [set_stream_handler] and [set_level]; [setup_logger] is what sets it.
    On a logger that was only constructed, whose handler is the console
    handler, [progress] and [job_info] raise [AttributeError] without a
    call to the engine, whatever their arguments, while [info], [debug],
    [error], [resources_info] and [run_info] return. *)
Theorem fresh_logger_has_no_quiet :
  quiet (@Logger_init pyobj) = None
  /\ (forall (self : Logger pyobj) h, quiet (set_stream_handler self h) = quiet self)
  /\ (forall (self : Logger pyobj) l, quiet (set_level self l) = quiet self)
  /\ (forall (self : Logger pyobj) sys err outs h q p r n o d t,
        quiet (setup_logger self sys err outs h q p r n o d t) = Some q)
  /\ (forall done total : Z,
        handle json_dumps Logger_init (progress done total)
        = ([], Raised (Builtin AttributeError)))
  /\ (forall j : job,
        handle json_dumps Logger_init (job_info j) = ([], Raised (Builtin AttributeError)))
  /\ (forall text : string,
        result (handle json_dumps Logger_init (info text)) = Returned tt
        /\ result (handle json_dumps Logger_init (debug text)) = Returned tt
        /\ result (handle json_dumps Logger_init (error text)) = Returned tt
        /\ result (handle json_dumps Logger_init (resources_info text)) = Returned tt
        /\ result (handle json_dumps Logger_init (run_info text)) = Returned tt).
Proof. repeat split. Qed.

(** C4, as the code has it.  An [info], [resources_info] or [run_info]
    event makes one call to the engine, with the message, at severity
    [WARNING], whatever the logger's settings; after [setup_logger] that
    call passes the threshold, with or without [debug]. *)
Theorem plain_messages_at_warning (self : Logger pyobj) (text : string) :
  console_handler json_dumps self (info text) = ([(WARNING, text)], Returned tt)
  /\ console_handler json_dumps self (resources_info text)
     = ([(WARNING, text)], Returned tt)
  /\ console_handler json_dumps self (run_info text)
     = ([(WARNING, text)], Returned tt)
  /\ (forall sys err outs h q p r n o d t,
        enabled (setup_logger self sys err outs h q p r n o d t) (WARNING, text)
        = true).
Proof.
  repeat split. intros. unfold enabled, effective_level, setup_logger.
  cbn. now destruct d.
Qed.

Lemma has_line_app (item : string) (a b : list string) :
  has_line item (a ++ b) = has_line item a || has_line item b.
Proof. apply existsb_app. Qed.

Lemma line_of_format_item {V : Type} (item : string) (value : V)
    (differs : V -> bool) (valueformat : V -> string) :
  differs value = true ->
  In (TAB ++ item ++ ": " ++ valueformat value)
     (yield_some (format_item item value differs valueformat)).
Proof. unfold format_item. intros ->. now left. Qed.

Lemma neb_None (v : pyval) : neb v PyNone = is_not_None v.
Proof. now destruct v. Qed.

(** C5. In the lines of a job summary there is a [priority] line exactly
    when [priority != 0], and it is the tab-indented [priority: value];
    there is a [threads] line exactly when [threads != 1]; there is a
    [reason] line exactly when [printreason] is set and [reason] is not
    [None].  These lines make the message of the summary, which is logged
    when [quiet] is off and there is no [msg] override. *)
Theorem job_summary_optional_lines (self : Logger pyobj) (j : job) :
  has_line "priority" (job_info_lines self j) = negb (eqb (priority j) (PyInt 0))
  /\ (eqb (priority j) (PyInt 0) = false ->
      In (TAB ++ "priority: " ++ str (priority j)) (job_info_lines self j))
  /\ has_line "threads" (job_info_lines self j) = negb (eqb (threads j) (PyInt 1))
  /\ (eqb (threads j) (PyInt 1) = false ->
      In (TAB ++ "threads: " ++ str (threads j)) (job_info_lines self j))
  /\ has_line "reason" (job_info_lines self j)
     = printreason self && is_not_None (reason j)
  /\ (printreason self = true -> is_not_None (reason j) = true ->
      In (TAB ++ "reason: " ++ str (reason j)) (job_info_lines self j))
  /\ (quiet self = Some false -> msg j = PyNone ->
      exists rest,
        console_handler json_dumps self (job_info j)
        = ((INFO, join NL (job_info_lines self j)) :: rest, Returned tt)).
Proof.
  unfold job_info_lines.
  set (header := (if truthy (local j) then "local" else "") ++ "rule "
                 ++ str (name j) ++ ":").
  set (lists := flat_map _ [("input", input j); ("output", output j)]).
  set (singles := flat_map _ _).
  set (numbers := flat_map _ [("priority", priority j, PyInt 0);
                              ("threads", threads j, PyInt 1)]).
  set (res := if negb (format_resources (resources j) =? "")%string
              then _ else _).
  assert (Hh : forall item, has_line item [header] = false).
  { intros item. unfold has_line, header. cbn [existsb].
    destruct (truthy (local j)); reflexivity. }
  assert (Hl : has_line "priority" lists = false
               /\ has_line "threads" lists = false
               /\ has_line "reason" lists = false).
  { unfold lists, format_item. cbn [flat_map fst snd].
    destruct (nonempty (input j)), (nonempty (output j)); repeat split. }
  assert (Hr : has_line "priority" res = false
               /\ has_line "threads" res = false
               /\ has_line "reason" res = false).
  { unfold res.
    destruct (negb (format_resources (resources j) =? "")%string);
      repeat split. }
  assert (Hs : has_line "priority" singles = false
               /\ has_line "threads" singles = false
               /\ has_line "reason" singles
                  = printreason self && is_not_None (reason j)).
  { unfold singles.
    destruct (printreason self); cbn [app flat_map fst snd];
      unfold format_item; rewrite !neb_None;
      destruct (is_not_None (log j)), (is_not_None (reason j));
      repeat split; cbn; now rewrite ?prefix_empty. }
  assert (Hn : has_line "priority" numbers = negb (eqb (priority j) (PyInt 0))
               /\ has_line "threads" numbers = negb (eqb (threads j) (PyInt 1))
               /\ has_line "reason" numbers = false).
  { unfold numbers, format_item, neb. cbn [app flat_map fst snd].
    destruct (negb (eqb (priority j) (PyInt 0))),
      (negb (eqb (threads j) (PyInt 1)));
      repeat split; cbn; now rewrite ?prefix_empty. }
  destruct Hs as (Hs1 & Hs2 & Hs3), Hn as (Hn1 & Hn2 & Hn3).
  destruct Hl as (Hl1 & Hl2 & Hl3), Hr as (Hr1 & Hr2 & Hr3).
  change (header :: lists ++ singles ++ numbers ++ res)%list
    with ([header] ++ lists ++ singles ++ numbers ++ res)%list.
  rewrite !has_line_app, !Hh, Hl1, Hl2, Hl3, Hr1, Hr2, Hr3,
    Hs1, Hs2, Hs3, Hn1, Hn2, Hn3.
  rewrite !orb_false_r. cbn [orb].
  repeat split.
  - intros H. apply in_or_app. right. apply in_or_app. right.
    apply in_or_app. right. apply in_or_app. left.
    unfold numbers. cbn [flat_map fst snd]. apply in_or_app. left.
    apply (line_of_format_item "priority"). unfold neb. now rewrite H.
  - intros H. apply in_or_app. right. apply in_or_app. right.
    apply in_or_app. right. apply in_or_app. left.
    unfold numbers. cbn [flat_map fst snd]. apply in_or_app. right.
    apply in_or_app. left.
    apply (line_of_format_item "threads"). unfold neb. now rewrite H.
  - intros P R. apply in_or_app. right. apply in_or_app. right.
    apply in_or_app. left.
    unfold singles. rewrite P. cbn [app flat_map fst snd].
    apply in_or_app. right. apply in_or_app. left.
    apply (line_of_format_item "reason"). now rewrite neb_None.
  - intros Q Mj. unfold console_handler, get_quiet, bind, tell, ret.
    rewrite Q, Mj. cbn.
    destruct (printshellcmds self && truthy (shellcmd j)); cbn; eauto.
Qed.

End WithJson.

(** A logger set up with [quiet=True] and [printshellcmds=True], and a job
    with a shell command. *)
Lemma quiet_suppresses_witness :
  quiet (@setup_logger unit Logger_init "Linux" {| isatty := Some true |}
           {| isatty := Some true |} None true true false false false false false)
  = Some true
  /\ console_handler (fun _ : list (string * unit) => Returned "{}")
       (setup_logger Logger_init "Linux" {| isatty := Some true |}
          {| isatty := Some true |} None true true false false false false false)
       (job_info {| name := PyStr "all"; local := PyBool false;
                    input := ["a.txt"]; output := ["b.txt"];
                    log := PyNone; reason := PyNone;
                    priority := PyInt 0; threads := PyInt 1;
                    resources := []; shellcmd := PyStr "cp a.txt b.txt";
                    msg := PyNone |})
     = ([(INFO, "cp a.txt b.txt")], Returned tt).
Proof.
  split; [reflexivity|].
  apply (quiet_suppresses unit (fun _ => Returned "{}")
           (setup_logger Logger_init "Linux" {| isatty := Some true |}
              {| isatty := Some true |} None true true false false false
              false false)).
  reflexivity.
Defined.

(** A summary with every optional line, and the same job with the
    defaults that drop them. *)
Example job_summary_lines :
  job_info_lines
    (@setup_logger unit Logger_init "Linux" {| isatty := Some true |}
       {| isatty := Some true |} None false false true false false false false)
    {| name := PyStr "align"; local := PyBool true;
       input := ["a.fq"; "b.fq"]; output := ["out.bam"];
       log := PyStr "align.log"; reason := PyStr "missing output";
       priority := PyInt 5; threads := PyInt 4;
       resources := [("_cores", PyInt 4); ("mem_mb", PyInt 100)];
       shellcmd := PyNone; msg := PyNone |}
  = ["localrule align:";
     TAB ++ "input: a.fq, b.fq";
     TAB ++ "output: out.bam";
     TAB ++ "log: align.log";
     TAB ++ "reason: missing output";
     TAB ++ "priority: 5";
     TAB ++ "threads: 4";
     TAB ++ "resources: mem_mb=100"]
  /\ job_info_lines
       (@setup_logger unit Logger_init "Linux" {| isatty := Some true |}
          {| isatty := Some true |} None false false false false false false
          false)
       {| name := PyStr "align"; local := PyBool false;
          input := []; output := ["out.bam"];
          log := PyNone; reason := PyStr "missing output";
          priority := PyInt 0; threads := PyInt 1;
          resources := [("_cores", PyInt 1); ("_nodes", PyInt 1)];
          shellcmd := PyNone; msg := PyNone |}
     = ["rule align:"; TAB ++ "output: out.bam"].
Proof. split; reflexivity. Qed.

(** C4, as the claim words it, fails: the call of an [info] event is not
    at severity [INFO]; it is at [WARNING], and the writer colours it
    yellow (33), not green (32). *)
Lemma info_event_is_not_at_INFO :
  effects (console_handler (fun _ : list (string * unit) => Returned "{}")
             Logger_init (info "hello"))
  <> [(INFO, "hello")]
  /\ render (@setup_logger unit Logger_init "Linux" {| isatty := Some true |}
               {| isatty := Some true |} None false false false false false
               false false)
            "now"
            (effects (console_handler
                        (fun _ : list (string * unit) => Returned "{}")
                        Logger_init (info "hello")))
     = ESC ++ "[33mhello" ++ ESC ++ "[0m" ++ NL.
Proof. split; [discriminate | reflexivity]. Qed.

End LoggingFacts.

(** ** Concurrent emissions *)

Module ThreadsFacts.
Import Py Exn Eff Handler Threads StrFacts.

Lemma block_snoc (t : tag) (s : string) (ch : ascii) :
  block (t, s ++ String ch "") = (block (t, s) ++ [(t, ch)])%list.
Proof.
  unfold block. cbn [fst snd].
  induction s as [|c s IH]; cbn; [reflexivity | now rewrite IH].
Qed.

Lemma block_app (t : tag) (a b : string) :
  block (t, a ++ b) = (block (t, a) ++ block (t, b))%list.
Proof.
  unfold block. cbn [fst snd].
  induction a as [|c a IH]; cbn; [reflexivity | now rewrite IH].
Qed.

Lemma set_thread_same (ts : nat -> thread) (i : nat) (t : thread) :
  set_thread ts i t i = t.
Proof. unfold set_thread. now rewrite Nat.eqb_refl. Qed.

Lemma set_thread_other (ts : nat -> thread) (i k : nat) (t : thread) :
  k <> i -> set_thread ts i t k = ts k.
Proof.
  intros H. unfold set_thread. apply Nat.eqb_neq in H. now rewrite H.
Qed.

Lemma skipn_head {A : Type} (l : list A) (n : nat) (x : A) (rest : list A) :
  skipn n l = x :: rest -> nth_error l n = Some x /\ skipn (S n) l = rest.
Proof.
  revert l. induction n as [|n IH]; intros [|y l] H; cbn in *; try discriminate.
  - injection H as -> ->. auto.
  - now apply IH.
Qed.

Section Run.

Variable prog : nat -> list emission.

(** The invariant only weakens when [ff] drops. *)
Lemma cur_ok_weaken (ff ff' : bool) (p : pc) (em : emission) (cur : string) :
  (ff' = true -> ff = true) -> cur_ok ff p em cur -> cur_ok ff' p em cur.
Proof.
  intros W. destruct p; cbn; auto. intros (A & B & C). auto.
Qed.

Lemma Inv_weaken (ff ff' : bool) (w : world) (past : list (tag * string))
    (cur : string) :
  (ff' = true -> ff = true) -> Inv prog ff w past cur -> Inv prog ff' w past cur.
Proof.
  intros W [O P N T C]. constructor; auto.
  - intros i n s H. destruct (P i n s H) as (L & em & E & R & F).
    split; [exact L|]. exists em. auto.
  - intros i. specialize (C i).
    destruct (inside (at_pc (threads w i))); auto.
    destruct C as (L & em & more & E & K). split; auto.
    exists em, more. split; auto. eapply cur_ok_weaken; eauto.
Qed.

(** Establish: nothing written, everyone outside. *)
Lemma Inv_start : Inv prog true (start prog) [] "".
Proof.
  constructor; cbn; auto.
  - intros i n s [].
  - constructor.
  - discriminate.
Qed.

Lemma Flushes_start : Flushes prog true (start prog) [].
Proof.
  constructor; cbn.
  - intros i n H. lia.
  - intros i n [].
  - intros _ i n H. lia.
  - intros _ i r H. discriminate.
Qed.

Lemma inv_pc_holder (ff : bool) (w : world) (past : list (tag * string))
    (cur : string) (i : nat) :
  Inv prog ff w past cur -> lock w = Some i ->
  inside (at_pc (threads w i)) = true
  /\ exists em rest, todo (threads w i) = em :: rest
                     /\ cur_ok ff (at_pc (threads w i)) em cur.
Proof.
  intros I L. pose proof (inv_pc _ _ _ _ _ I i) as C.
  destruct (inside (at_pc (threads w i))); [|congruence].
  destruct C as (_ & em & more & E & K). eauto.
Qed.

Lemma inv_pc_lock (ff : bool) (w : world) (past : list (tag * string))
    (cur : string) (i : nat) :
  Inv prog ff w past cur -> inside (at_pc (threads w i)) = true ->
  lock w = Some i.
Proof.
  intros I N. pose proof (inv_pc _ _ _ _ _ I i) as C.
  rewrite N in C. apply C.
Qed.

Lemma move_other (w : world) (i k : nat) (p' : pc) :
  k <> i -> threads (move w i p') k = threads w k.
Proof. intros D. cbn. now rewrite set_thread_other. Qed.

Lemma move_same (w : world) (i : nat) (p' : pc) :
  threads (move w i p') i
  = {| at_pc := p'; todo := todo (threads w i); seq := seq (threads w i) |}.
Proof. cbn. now rewrite set_thread_same. Qed.

(** Preserve, for a step that only moves the holder's program counter. *)
Lemma Inv_move (ff ff' : bool) (w : world) (past : list (tag * string))
    (cur : string) (i : nat) (p' : pc) :
  Inv prog ff w past cur ->
  lock w = Some i ->
  (ff' = true -> ff = true) ->
  inside p' = true ->
  (forall em rest, todo (threads w i) = em :: rest ->
                   cur_ok ff (at_pc (threads w i)) em cur ->
                   cur_ok ff' p' em cur) ->
  Inv prog ff' (move w i p') past cur.
Proof.
  intros I L W N K.
  destruct (inv_pc_holder _ _ _ _ _ I L) as (_ & em & rest & E & Kc).
  assert (S : forall k, seq (threads (move w i p') k) = seq (threads w k)).
  { intros k. destruct (Nat.eq_dec k i) as [->|D].
    - now rewrite move_same.
    - now rewrite move_other. }
  assert (T : forall k, todo (threads (move w i p') k) = todo (threads w k)).
  { intros k. destruct (Nat.eq_dec k i) as [->|D].
    - now rewrite move_same.
    - now rewrite move_other. }
  destruct (Inv_weaken _ _ _ _ _ W I) as [O P ND TD C].
  constructor.
  - change (lock (move w i p')) with (lock w).
    change (out (move w i p')) with (out w).
    rewrite L in *. rewrite S. exact O.
  - intros k n s H. rewrite S. now apply P.
  - exact ND.
  - intros k. rewrite S, T. apply TD.
  - intros k. destruct (Nat.eq_dec k i) as [->|D].
    + rewrite T, move_same. cbn [at_pc]. rewrite N.
      split; [exact L|]. exists em, rest. split; [exact E|].
      exact (K em rest E Kc).
    + rewrite move_other by exact D. apply C.
Qed.

(** Preserve, when a thread takes the free lock. *)
Lemma Inv_acquire (ff : bool) (w : world) (past : list (tag * string))
    (cur : string) (i : nat) :
  Inv prog ff w past cur ->
  lock w = None ->
  todo (threads w i) <> [] ->
  Inv prog ff (acquire w i) past "".
Proof.
  intros [O P ND TD C] L E. rewrite L in O.
  constructor; cbn [acquire lock out threads].
  - rewrite set_thread_same. cbn [seq block snd list_ascii_of_string map].
    exact O.
  - intros k n s H. destruct (Nat.eq_dec k i) as [->|D].
    + rewrite set_thread_same. now apply P.
    + rewrite set_thread_other by exact D. now apply P.
  - exact ND.
  - intros k. destruct (Nat.eq_dec k i) as [->|D].
    + rewrite set_thread_same. apply TD.
    + rewrite set_thread_other by exact D. apply TD.
  - intros k. destruct (Nat.eq_dec k i) as [->|D].
    + rewrite set_thread_same. cbn [at_pc inside todo].
      split; [reflexivity|].
      destruct (todo (threads w i)) as [|em rest]; [congruence|].
      exists em, rest. now split.
    + rewrite set_thread_other by exact D. specialize (C k).
      destruct (inside (at_pc (threads w k))).
      * destruct C as [C _]. congruence.
      * congruence.
Qed.

(** Preserve, when the holder writes one character. *)
Lemma Inv_write (ff : bool) (w : world) (past : list (tag * string))
    (cur : string) (i : nat) (ch : ascii) (rest : string)
    (pending : list string) :
  Inv prog ff w past cur ->
  at_pc (threads w i) = Writing (String ch rest) pending ->
  Inv prog ff (write_char w i ch rest pending) past (cur ++ String ch "").
Proof.
  intros I A.
  assert (L : lock w = Some i) by (eapply inv_pc_lock; eauto; now rewrite A).
  destruct (inv_pc_holder _ _ _ _ _ I L) as (_ & em & more & E & K).
  rewrite A in K. cbn [cur_ok] in K.
  destruct I as [O P ND TD C]. rewrite L in O.
  constructor; cbn [write_char lock out threads].
  - rewrite L, set_thread_same. cbn [seq].
    now rewrite block_snoc, O, <- app_assoc.
  - intros k n s H. destruct (Nat.eq_dec k i) as [->|D].
    + rewrite set_thread_same. now apply P.
    + rewrite set_thread_other by exact D. now apply P.
  - exact ND.
  - intros k. destruct (Nat.eq_dec k i) as [->|D].
    + rewrite set_thread_same. apply TD.
    + rewrite set_thread_other by exact D. apply TD.
  - intros k. destruct (Nat.eq_dec k i) as [->|D].
    + rewrite set_thread_same. cbn [at_pc inside todo].
      split; [exact L|]. exists em, more. split; [exact E|].
      cbn [cur_ok]. rewrite <- K, append_assoc. reflexivity.
    + rewrite set_thread_other by exact D. specialize (C k).
      destruct (inside (at_pc (threads w k))).
      * destruct C as [C _]. congruence.
      * exact C.
Qed.

(** Preserve, when the holder leaves the [with] block: its block joins
    the past and the lock is free again. *)
Lemma Inv_release (ff : bool) (w : world) (past : list (tag * string))
    (cur : string) (i : nat) (raised failing : option exn) :
  Inv prog ff w past cur ->
  at_pc (threads w i) = Leaving raised ->
  Inv prog ff (release w i raised failing)
    (past ++ [((i, seq (threads w i)), cur)]) "".
Proof.
  intros I A.
  assert (L : lock w = Some i) by (eapply inv_pc_lock; eauto; now rewrite A).
  destruct (inv_pc_holder _ _ _ _ _ I L) as (_ & em & more & E & K).
  rewrite A in K. destruct K as (Kp & Kn & Kf).
  destruct I as [O P ND TD C]. rewrite L in O.
  assert (Sk : skipn (seq (threads w i)) (prog i) = em :: more).
  { destruct (TD i) as [Z|Z]; congruence. }
  apply skipn_head in Sk as [Hn Hs].
  constructor; cbn [release lock out threads].
  - rewrite flat_map_app, app_nil_r, O. cbn [flat_map].
    now rewrite app_nil_r.
  - intros k n s H. apply in_app_or in H as [H|[H|[]]].
    + destruct (Nat.eq_dec k i) as [->|D].
      * rewrite set_thread_same. cbn [seq].
        destruct (P i n s H) as [Lt R]. split; [lia|exact R].
      * rewrite set_thread_other by exact D. now apply P.
    + injection H as <- <- <-. rewrite set_thread_same. cbn [seq].
      split; [lia|]. exists em. repeat split; auto.
  - rewrite map_app. cbn [map fst]. apply NoDup_app; [exact ND | | ].
    + repeat constructor. intros [].
    + intros t Hin [<-|[]]. apply in_map_iff in Hin as ([t' s] & Ht & Hin).
      cbn in Ht. subst t'. apply P in Hin as [Lt _]. lia.
  - intros k. destruct (Nat.eq_dec k i) as [->|D].
    + rewrite set_thread_same. cbn [todo seq]. rewrite E. cbn [tl].
      destruct raised as [e|]; [destruct (escapes failing e)|]; auto.
    + rewrite set_thread_other by exact D. apply TD.
  - intros k. destruct (Nat.eq_dec k i) as [->|D].
    + rewrite set_thread_same. cbn [at_pc inside]. discriminate.
    + rewrite set_thread_other by exact D. specialize (C k).
      destruct (inside (at_pc (threads w k))).
      * destruct C as [C _]. congruence.
      * discriminate.
Qed.

Lemma prefix_self (s : string) : exists rest, s = s ++ rest.
Proof. exists "". now rewrite append_nil_r. Qed.

(** The stream invariant does not look at the flushes. *)
Lemma Inv_same (ff : bool) (w w' : world) (past : list (tag * string))
    (cur : string) :
  lock w' = lock w -> out w' = out w -> threads w' = threads w ->
  Inv prog ff w past cur -> Inv prog ff w' past cur.
Proof.
  intros L O T [Io Ip In It Ic].
  constructor; rewrite ?L, ?O, ?T; assumption.
Qed.

(** Preserve, when the flush of the holder returns. *)
Lemma Inv_flush (ff : bool) (w : world) (past : list (tag * string))
    (cur : string) (i : nat) :
  Inv prog ff w past cur ->
  at_pc (threads w i) = AtFlush ->
  Inv prog ff (flush w i) past cur.
Proof.
  intros I A.
  assert (L : lock w = Some i) by (eapply inv_pc_lock; eauto; now rewrite A).
  apply (Inv_same ff (move w i (Leaving None))); try reflexivity.
  apply (Inv_move ff); auto. intros em more _ K. rewrite A in K.
  cbn [cur_ok] in *. subst cur. repeat split. apply prefix_self.
Qed.

(** The flushes, over a step that flushes nothing and leaves no emission
    behind: only the program counter of thread [i] changes. *)
Lemma Flushes_same (ff ff' : bool) (w w' : world) (past : list (tag * string))
    (i : nat) (p' : pc) :
  Flushes prog ff w past ->
  (ff' = true -> ff = true) ->
  flushed w' = flushed w ->
  threads w' = set_thread (threads w) i
                 {| at_pc := p'; todo := todo (threads w i);
                    seq := seq (threads w i) |} ->
  at_pc (threads w i) <> Leaving None ->
  (ff' = true -> forall r, p' <> Leaving r) ->
  Flushes prog ff' w' past.
Proof.
  intros [D Wh Al Lv] W F T Old New.
  assert (S : forall k, seq (threads w' k) = seq (threads w k)).
  { intros k. rewrite T. destruct (Nat.eq_dec k i) as [->|N].
    - now rewrite set_thread_same.
    - now rewrite set_thread_other. }
  constructor.
  - intros k n H. rewrite S in H. now apply D.
  - intros k n H. rewrite F in H. rewrite S.
    destruct (Wh k n H) as [Hl|[Hn Hp]]; [now left|].
    destruct (Nat.eq_dec k i) as [->|N]; [congruence|].
    right. split; [exact Hn|]. rewrite T, set_thread_other by exact N.
    exact Hp.
  - intros H k n Lt. rewrite S in Lt. rewrite F. now apply Al; auto.
  - intros H k r P. rewrite F, S.
    destruct (Nat.eq_dec k i) as [->|N].
    + rewrite T, set_thread_same in P. now elim (New H r).
    + rewrite T, set_thread_other in P by exact N. apply (Lv (W H) k r P).
Qed.

(** The flushes, when the flush of the holder returns. *)
Lemma Flushes_flush (ff : bool) (w : world) (past : list (tag * string))
    (i : nat) :
  Flushes prog ff w past ->
  at_pc (threads w i) = AtFlush ->
  Flushes prog ff (flush w i) past.
Proof.
  intros [D Wh Al Lv] A.
  assert (S : forall k, seq (threads (flush w i) k) = seq (threads w k)).
  { intros k. cbn [flush threads]. destruct (Nat.eq_dec k i) as [->|N].
    - now rewrite set_thread_same.
    - now rewrite set_thread_other. }
  constructor.
  - intros k n H. rewrite S in H. now apply D.
  - intros k n H. rewrite S. cbn [flush flushed] in H.
    apply in_app_or in H as [H|[H|[]]].
    + destruct (Wh k n H) as [Hl|[Hn Hp]]; [now left|].
      destruct (Nat.eq_dec k i) as [->|N]; [congruence|].
      right. split; [exact Hn|]. cbn [flush threads].
      now rewrite set_thread_other.
    + injection H as <- <-. right. split; [reflexivity|].
      cbn [flush threads]. now rewrite set_thread_same.
  - intros H k n Lt. rewrite S in Lt. cbn [flush flushed].
    apply in_or_app. left. now apply Al.
  - intros H k r P. rewrite S. cbn [flush flushed]. apply in_or_app.
    destruct (Nat.eq_dec k i) as [->|N].
    + right. now left.
    + left. cbn [flush threads] in P. rewrite set_thread_other in P by exact N.
      now apply (Lv H k r).
Qed.

(** The flushes, when the holder leaves the [with] block. *)
Lemma Flushes_release (ff : bool) (w : world) (past : list (tag * string))
    (cur : string) (i : nat) (raised failing : option exn) :
  Inv prog ff w past cur ->
  Flushes prog ff w past ->
  at_pc (threads w i) = Leaving raised ->
  Flushes prog ff (release w i raised failing)
    (past ++ [((i, seq (threads w i)), cur)]).
Proof.
  intros I [D Wh Al Lv] A.
  assert (L : lock w = Some i) by (eapply inv_pc_lock; eauto; now rewrite A).
  destruct (inv_pc_holder _ _ _ _ _ I L) as (_ & em & more & E & K).
  rewrite A in K. destruct K as (Kp & Kn & Kf).
  assert (Sk : skipn (seq (threads w i)) (prog i) = em :: more).
  { destruct (inv_todo _ _ _ _ _ I i) as [Z|Z]; congruence. }
  apply skipn_head in Sk as [Hn _].
  assert (Si : seq (threads (release w i raised failing) i)
               = S (seq (threads w i))).
  { cbn [release threads]. now rewrite set_thread_same. }
  assert (So : forall k, k <> i ->
                 threads (release w i raised failing) k = threads w k).
  { intros k N. cbn [release threads]. now rewrite set_thread_other. }
  constructor.
  - intros k n H. destruct (Nat.eq_dec k i) as [->|N].
    + rewrite Si in H. destruct (Nat.eq_dec n (seq (threads w i))) as [->|Ne].
      * exists cur. apply in_or_app. right. now left.
      * destruct (D i n ltac:(lia)) as [s Hs]. exists s.
        apply in_or_app. now left.
    + rewrite So in H by exact N. destruct (D k n H) as [s Hs]. exists s.
      apply in_or_app. now left.
  - intros k n H. cbn [release flushed] in H. left.
    destruct (Wh k n H) as [[Lt (em' & Hem & Hin)]|[Hq Hp]].
    + split.
      * destruct (Nat.eq_dec k i) as [->|N]; [rewrite Si; lia|].
        now rewrite So.
      * exists em'. split; [exact Hem|]. apply in_or_app. now left.
    + assert (k = i).
      { assert (Lk : lock w = Some k)
          by (eapply inv_pc_lock; eauto; now rewrite Hp).
        congruence. }
      subst k. rewrite Si. split; [lia|]. exists em. subst n.
      split; [exact Hn|]. apply in_or_app. right. left.
      rewrite A in Hp. injection Hp as ->. now rewrite (Kn eq_refl).
  - intros H k n Lt. cbn [release flushed].
    destruct (Nat.eq_dec k i) as [->|N].
    + rewrite Si in Lt. destruct (Nat.eq_dec n (seq (threads w i))) as [->|Ne].
      * exact (Lv H i raised A).
      * apply (Al H). lia.
    + rewrite So in Lt by exact N. now apply (Al H).
  - intros H k r P. destruct (Nat.eq_dec k i) as [->|N].
    + cbn [release threads] in P. rewrite set_thread_same in P. discriminate.
    + rewrite So in * by exact N. cbn [release flushed]. now apply (Lv H k r).
Qed.

Ltac same_flushes F W A :=
  eapply Flushes_same;
  [exact F | exact W | reflexivity | reflexivity | rewrite A; discriminate |].

Lemma Flushes_weaken (ff ff' : bool) (w : world) (past : list (tag * string)) :
  (ff' = true -> ff = true) -> Flushes prog ff w past -> Flushes prog ff' w past.
Proof.
  intros W [D Wh Al Lv]. constructor; auto.
  intros H. exact (Lv (W H)).
Qed.

(** Preserve, for every step. *)
Lemma step_inv (ff : bool) (w : world) (past : list (tag * string))
    (cur : string) (c : choice) :
  Inv prog ff w past cur ->
  Flushes prog ff w past ->
  exists past' cur',
    Inv prog (ff && nofault c) (step c w) past' cur'
    /\ Flushes prog (ff && nofault c) (step c w) past'.
Proof.
  intros I F.
  assert (W : ff && nofault c = true -> ff = true)
    by (intros H; now apply andb_true_iff in H).
  unfold step. destruct c as [i f]. cbn [fst snd].
  destruct (at_pc (threads w i)) as [| |rest pending| |raised] eqn:A.
  - (* outside: take the lock if there is work and it is free *)
    destruct (todo (threads w i)) as [|em more] eqn:T.
    { exists past, cur. split; [eapply Inv_weaken | eapply Flushes_weaken]; eauto. }
    destruct (lock w) eqn:L.
    { exists past, cur. split; [eapply Inv_weaken | eapply Flushes_weaken]; eauto. }
    exists past, "". split.
    + eapply Inv_weaken; [exact W|].
      apply Inv_acquire with cur; auto. congruence.
    + same_flushes F W A. discriminate.
  - (* formatting *)
    assert (L : lock w = Some i) by (eapply inv_pc_lock; eauto; now rewrite A).
    destruct (inv_pc_holder _ _ _ _ _ I L) as (_ & em & more & T & _).
    exists past, cur. rewrite T.
    destruct f as [e|].
    + split.
      * apply (Inv_move ff); auto. intros em' more' _ K. rewrite A in K.
        cbn in K. subst cur. cbn [cur_ok]. unfold nofault. cbn [snd].
        rewrite andb_false_r. repeat split; try discriminate.
        now exists (full_text em').
      * same_flushes F W A.
        unfold nofault. cbn [snd]. rewrite andb_false_r. discriminate.
    + split.
      * apply (Inv_move ff); auto. rewrite T. intros em' more' [= <- <-] K.
        rewrite A in K. cbn in K. subst cur. reflexivity.
      * same_flushes F W A.
        discriminate.
  - (* writing *)
    assert (L : lock w = Some i) by (eapply inv_pc_lock; eauto; now rewrite A).
    destruct f as [e|];
      [|destruct rest as [|ch rest]; [destruct pending as [|next pending]|]].
    + exists past, cur. split.
      * apply (Inv_move ff); auto. intros em more _ K.
        rewrite A in K. cbn [cur_ok] in *. unfold nofault. cbn [snd].
        rewrite andb_false_r. repeat split; try discriminate. eauto.
      * same_flushes F W A.
        unfold nofault. cbn [snd]. rewrite andb_false_r. discriminate.
    + exists past, cur. split.
      * apply (Inv_move ff); auto. intros em more _ K.
        rewrite A in K. cbn in K. cbn [cur_ok]. now rewrite append_nil_r in K.
      * same_flushes F W A.
        discriminate.
    + exists past, cur. split.
      * apply (Inv_move ff); auto. intros em more _ K.
        rewrite A in K. cbn [cur_ok] in *.
        now rewrite concat_empty_cons in K.
      * same_flushes F W A.
        discriminate.
    + exists past, (cur ++ String ch ""). split.
      * eapply Inv_weaken; [exact W|]. now apply Inv_write.
      * same_flushes F W A.
        discriminate.
  - (* flushing *)
    assert (L : lock w = Some i) by (eapply inv_pc_lock; eauto; now rewrite A).
    exists past, cur. destruct f as [e|].
    + split.
      * apply (Inv_move ff); auto. intros em more _ K. rewrite A in K.
        cbn [cur_ok] in *. subst cur. unfold nofault. cbn [snd].
        rewrite andb_false_r. repeat split; try discriminate. apply prefix_self.
      * same_flushes F W A.
        unfold nofault. cbn [snd]. rewrite andb_false_r. discriminate.
    + split.
      * eapply Inv_weaken; [exact W|]. now apply Inv_flush.
      * eapply Flushes_weaken; [exact W|]. now apply Flushes_flush.
  - (* leaving *)
    exists (past ++ [((i, seq (threads w i)), cur)])%list, "". split.
    + eapply Inv_weaken; [exact W|]. now apply Inv_release.
    + eapply Flushes_weaken; [exact W|]. now apply Flushes_release.
Qed.

(** The invariants hold all along a run. *)
Lemma run_inv (schedule : list choice) :
  forall (ff : bool) (w : world) (past : list (tag * string)) (cur : string),
    Inv prog ff w past cur ->
    Flushes prog ff w past ->
    exists past' cur',
      Inv prog (ff && fault_free schedule) (run schedule w) past' cur'
      /\ Flushes prog (ff && fault_free schedule) (run schedule w) past'.
Proof.
  induction schedule as [|c schedule IH]; intros ff w past cur I F.
  - exists past, cur. cbn. now rewrite andb_true_r.
  - destruct (step_inv _ _ _ _ c I F) as (past1 & cur1 & I1 & F1).
    destruct (IH _ _ _ _ I1 F1) as (past2 & cur2 & I2 & F2).
    exists past2, cur2. cbn [run fold_left fault_free forallb] in *.
    now rewrite andb_assoc.
Qed.

Lemma cur_ok_prefix (ff : bool) (p : pc) (em : emission) (cur : string) :
  inside p = true -> cur_ok ff p em cur -> exists rest, full_text em = cur ++ rest.
Proof.
  destruct p as [| |rest pending| |raised]; cbn; intros N K.
  - discriminate.
  - subst cur. now exists (full_text em).
  - eauto.
  - subst cur. apply prefix_self.
  - apply K.
Qed.

(** Use: the blocks of the stream and the flushes, from the invariants. *)
Lemma Inv_blocks (ff : bool) (w : world) (past : list (tag * string))
    (cur : string) :
  Inv prog ff w past cur ->
  Flushes prog ff w past ->
  exists blocks : list (tag * string),
    out w = flat_map block blocks
    /\ NoDup (map fst blocks)
    /\ (forall i n s, In ((i, n), s) blocks ->
          exists em, nth_error (prog i) n = Some em
                     /\ (exists rest, full_text em = s ++ rest)
                     /\ (ff = true -> (n < seq (threads w i))%nat ->
                         s = full_text em))
    /\ (forall i n, (n < seq (threads w i))%nat ->
          exists s, In ((i, n), s) blocks)
    /\ (forall i n, In (i, n) (flushed w) ->
          exists em, nth_error (prog i) n = Some em
                     /\ In ((i, n), full_text em) blocks)
    /\ (ff = true ->
        forall i n, (n < seq (threads w i))%nat ->
          In (i, n) (flushed w)
          /\ exists em, nth_error (prog i) n = Some em
                        /\ In ((i, n), full_text em) blocks).
Proof.
  intros I Fl. pose proof I as [O P ND TD C]. pose proof Fl as [D Wh Al Lv].
  assert (G : exists blocks : list (tag * string),
             out w = flat_map block blocks
             /\ NoDup (map fst blocks)
             /\ (forall i n s, In ((i, n), s) blocks ->
                   exists em, nth_error (prog i) n = Some em
                              /\ (exists rest, full_text em = s ++ rest)
                              /\ (ff = true -> (n < seq (threads w i))%nat ->
                                  s = full_text em))
             /\ (forall i n, (n < seq (threads w i))%nat ->
                   exists s, In ((i, n), s) blocks)
             /\ (forall i n, In (i, n) (flushed w) ->
                   exists em, nth_error (prog i) n = Some em
                              /\ In ((i, n), full_text em) blocks)).
  { destruct (lock w) as [h|] eqn:L.
    - destruct (inv_pc_holder _ _ _ _ _ I L) as (N & em & more & E & K).
      assert (Sk : skipn (seq (threads w h)) (prog h) = em :: more).
      { destruct (TD h) as [Z|Z]; congruence. }
      apply skipn_head in Sk as [Hn _].
      exists (past ++ [((h, seq (threads w h)), cur)])%list. repeat split.
      + rewrite flat_map_app, O. cbn [flat_map]. now rewrite app_nil_r.
      + rewrite map_app. cbn [map fst]. apply NoDup_app; [exact ND | | ].
        * repeat constructor. intros [].
        * intros t Hin [<-|[]]. apply in_map_iff in Hin as ([t' s] & Ht & Hin).
          cbn in Ht. subst t'. apply P in Hin as [Lt _]. lia.
      + intros i n s H. apply in_app_or in H as [H|[H|[]]].
        * destruct (P i n s H) as (_ & em' & A & B & Q). exists em'. auto.
        * injection H as <- <- <-. exists em. repeat split; auto.
          -- eapply cur_ok_prefix; eauto.
          -- intros _ Lt. lia.
      + intros i n Lt. destruct (D i n Lt) as [s Hs]. exists s.
        apply in_or_app. now left.
      + intros i n H. destruct (Wh i n H) as [[_ (em' & A & B)]|[Hq Hp]].
        * exists em'. split; [exact A|]. apply in_or_app. now left.
        * assert (i = h).
          { assert (Li : lock w = Some i)
              by (eapply inv_pc_lock; eauto; now rewrite Hp).
            congruence. }
          subst i n. exists em. split; [exact Hn|]. apply in_or_app. right.
          left. rewrite Hp in K. destruct K as (_ & Kn & _).
          now rewrite (Kn eq_refl).
    - exists past. rewrite app_nil_r in O. repeat split; auto.
      + intros i n s H. destruct (P i n s H) as (_ & em' & A & B & Q).
        exists em'. auto.
      + intros i n H. destruct (Wh i n H) as [[_ (em' & A & B)]|[Hq Hp]].
        * exists em'. auto.
        * assert (Li : lock w = Some i)
            by (eapply inv_pc_lock; eauto; now rewrite Hp).
          congruence. }
  destruct G as (blocks & G1 & G2 & G3 & G4 & G5).
  exists blocks. repeat split; auto.
Qed.

(** Mutual exclusion: the threads inside [emit] are the holder alone. *)
Lemma Inv_exclusive (ff : bool) (w : world) (past : list (tag * string))
    (cur : string) (i k : nat) :
  Inv prog ff w past cur ->
  inside (at_pc (threads w i)) = true ->
  inside (at_pc (threads w k)) = true ->
  i = k.
Proof.
  intros I Hi Hk.
  pose proof (inv_pc_lock _ _ _ _ _ I Hi) as Li.
  pose proof (inv_pc_lock _ _ _ _ _ I Hk) as Lk. congruence.
Qed.

(** While the lock is free every thread is outside [emit]. *)
Lemma Inv_free (ff : bool) (w : world) (past : list (tag * string))
    (cur : string) (i : nat) :
  Inv prog ff w past cur -> lock w = None -> at_pc (threads w i) = Outside.
Proof.
  intros I L. pose proof (inv_pc _ _ _ _ _ I i) as C.
  destruct (at_pc (threads w i)); cbn in C; try reflexivity;
    destruct C as [C _]; congruence.
Qed.

End Run.

(** A run of [emit] on its own writes the two texts, one after the other. *)
Lemma emit_writes_full_text (em : emission) :
  written (effects (emit no_fault (em_handler em) (em_asctime em) (em_record em)))
  = full_text em.
Proof.
  unfold full_text, first_write, second_write. cbn.
  now rewrite append_nil_r.
Qed.

Lemma run_cons (c : choice) (schedule : list choice) (w : world) :
  run (c :: schedule) w = run schedule (step c w).
Proof. reflexivity. Qed.

Lemma run_app (s1 s2 : list choice) (w : world) :
  run (s1 ++ s2) w = run s2 (run s1 w).
Proof. apply fold_left_app. Qed.

(** The steps of a thread inside [emit] when nothing fails, one by one. *)
Ltac one_step :=
  intros (L & O & F & T); unfold step, sees; cbn [fst snd]; rewrite T;
  cbn [at_pc todo]; rewrite ?L;
  cbn [acquire move write_char flush release lock out flushed threads];
  rewrite ?T, ?set_thread_same; cbn [at_pc todo seq tl]; subst; auto.

Lemma sees_acquire (w : world) (i : nat) (o : list (tag * ascii))
    (fl : list tag) (em : emission) (rest : list emission) (n : nat) :
  sees w i None o fl {| at_pc := Outside; todo := em :: rest; seq := n |} ->
  sees (step (i, None) w) i (Some i) o fl
    {| at_pc := AtFormat; todo := em :: rest; seq := n |}.
Proof. one_step. Qed.

Lemma sees_format (w : world) (i : nat) (l : option nat)
    (o : list (tag * ascii)) (fl : list tag) (em : emission)
    (rest : list emission) (n : nat) :
  sees w i l o fl {| at_pc := AtFormat; todo := em :: rest; seq := n |} ->
  sees (step (i, None) w) i l o fl
    {| at_pc := Writing (first_write em) [second_write em];
       todo := em :: rest; seq := n |}.
Proof. one_step. Qed.

Lemma sees_char (w : world) (i : nat) (l : option nat)
    (o : list (tag * ascii)) (fl : list tag) (ch : ascii) (text : string)
    (pending : list string) (td : list emission) (n : nat) :
  sees w i l o fl
    {| at_pc := Writing (String ch text) pending; todo := td; seq := n |} ->
  sees (step (i, None) w) i l (o ++ [((i, n), ch)]) fl
    {| at_pc := Writing text pending; todo := td; seq := n |}.
Proof. one_step. Qed.

Lemma sees_next (w : world) (i : nat) (l : option nat)
    (o : list (tag * ascii)) (fl : list tag) (next : string)
    (pending : list string) (td : list emission) (n : nat) :
  sees w i l o fl
    {| at_pc := Writing "" (next :: pending); todo := td; seq := n |} ->
  sees (step (i, None) w) i l o fl
    {| at_pc := Writing next pending; todo := td; seq := n |}.
Proof. one_step. Qed.

Lemma sees_written (w : world) (i : nat) (l : option nat)
    (o : list (tag * ascii)) (fl : list tag) (td : list emission) (n : nat) :
  sees w i l o fl {| at_pc := Writing "" []; todo := td; seq := n |} ->
  sees (step (i, None) w) i l o fl {| at_pc := AtFlush; todo := td; seq := n |}.
Proof. one_step. Qed.

Lemma sees_flush (w : world) (i : nat) (l : option nat)
    (o : list (tag * ascii)) (fl : list tag) (td : list emission) (n : nat) :
  sees w i l o fl {| at_pc := AtFlush; todo := td; seq := n |} ->
  sees (step (i, None) w) i l o (fl ++ [(i, n)])
    {| at_pc := Leaving None; todo := td; seq := n |}.
Proof. one_step. Qed.

Lemma sees_release (w : world) (i : nat) (l : option nat)
    (o : list (tag * ascii)) (fl : list tag) (td : list emission) (n : nat) :
  sees w i l o fl {| at_pc := Leaving None; todo := td; seq := n |} ->
  sees (step (i, None) w) i None o fl
    {| at_pc := Outside; todo := tl td; seq := S n |}.
Proof. one_step. Qed.

(** A text goes out character by character, in as many steps. *)
Lemma sees_text (i : nat) (l : option nat) (fl : list tag)
    (pending : list string) (td : list emission) (n : nat) (text : string) :
  forall (w : world) (o : list (tag * ascii)),
    sees w i l o fl {| at_pc := Writing text pending; todo := td; seq := n |} ->
    sees (run (repeat (i, None) (String.length text)) w) i l
      (o ++ block ((i, n), text)) fl
      {| at_pc := Writing "" pending; todo := td; seq := n |}.
Proof.
  induction text as [|ch text IH]; intros w o H.
  - cbn. now rewrite app_nil_r.
  - cbn [String.length repeat]. rewrite run_cons.
    apply sees_char in H. apply IH in H.
    change (block ((i, n), String ch text))
      with (((i, n), ch) :: block ((i, n), text)).
    now rewrite <- app_assoc in H.
Qed.

(** A thread that finds the lock free and runs alone, with nothing
    failing, takes its emission to the end: after as many steps as the
    message and the terminator have characters, and six more, the whole
    text is on the stream behind what was there, the emission is flushed,
    the lock is free again, and the thread is at its next emission. *)
Lemma solo_emission (w : world) (i : nat) (em : emission)
    (rest : list emission) :
  lock w = None ->
  at_pc (threads w i) = Outside ->
  todo (threads w i) = em :: rest ->
  sees (run (repeat (i, None) (String.length (full_text em) + 6)) w) i None
    (out w ++ block ((i, seq (threads w i)), full_text em))
    (flushed w ++ [(i, seq (threads w i))])
    {| at_pc := Outside; todo := rest; seq := S (seq (threads w i)) |}.
Proof.
  intros L A T.
  assert (H : sees w i None (out w) (flushed w)
                {| at_pc := Outside; todo := em :: rest;
                   seq := seq (threads w i) |}).
  { repeat split; auto. destruct (threads w i). cbn in *. now subst. }
  replace (String.length (full_text em) + 6)%nat
    with (2 + (String.length (first_write em)
               + (1 + (String.length (second_write em) + 3))))%nat
    by (unfold full_text; rewrite length_append; lia).
  rewrite !repeat_app, !run_app. cbn [repeat Nat.add]. rewrite !run_cons.
  change (run [] ?x) with x.
  apply sees_acquire, sees_format, sees_text, sees_next, sees_text,
    sees_written, sees_flush, sees_release in H.
  unfold full_text. rewrite block_app, app_assoc. exact H.
Qed.

(** Two threads, the second trying to enter while the first writes: its
    text comes after the first one's, whole. *)
Example two_threads :
  out_text
    (run ([(0, None); (1, None); (0, None); (0, None); (1, None)]
          ++ repeat (0, None) 6 ++ repeat (1, None) 9)%nat%list
       (start (fun i =>
                 match i with
                 | 0%nat => [{| em_handler := init "Linux" true
                                                {| isatty := None |} false;
                                em_asctime := "";
                                em_record := {| levelname := "INFO";
                                                message := "ab" |} |}]
                 | 1%nat => [{| em_handler := init "Linux" true
                                                {| isatty := None |} false;
                                em_asctime := "";
                                em_record := {| levelname := "INFO";
                                                message := "cd" |} |}]
                 | _ => []
                 end)))
  = "ab" ++ NL ++ "cd" ++ NL.
Proof. reflexivity. Qed.

(** C9. The lock is one for all handlers: the world of the threads has a
    single lock, which [emit] takes before it formats, writes and flushes
    and gives back whatever happens; when nothing fails [emit] formats,
    writes the message, writes the terminator and flushes, in this order,
    between taking and giving back the lock.  Under every schedule of the threads'
    steps, with operations failing at any point: at most one thread is
    inside [emit]; the stream is a sequence of blocks, one for every
    emission that is over or under way and no two for the same, each block
    a prefix of what that emission writes (message, then terminator); an
    emission is flushed only once its whole block is on the stream; and
    when no operation failed, every emission that is over has its whole
    text as its block and is flushed.  No character of one emission
    stands between two characters of another.  And the emissions do get
    written: a thread that finds the lock free and is then the one to run,
    with nothing failing, puts the whole text of its emission on the
    stream, flushes it and gives the lock back, in as many steps as the
    text has characters and six more. *)
Theorem emissions_do_not_interleave (prog : nat -> list emission)
    (schedule : list choice) :
  (forall f self asctime record,
      exists inside_events : list io_event,
        effects (emit f self asctime record)
        = (Acquire :: inside_events ++ [Release])%list
        /\ ~ In Acquire inside_events /\ ~ In Release inside_events)
  /\ (forall em : emission,
        emit no_fault (em_handler em) (em_asctime em) (em_record em)
        = ([Acquire; Format; Write (first_write em); Write (second_write em);
            Flush; Release], Returned tt))
  /\ (forall i k : nat,
        inside (at_pc (threads (run schedule (start prog)) i)) = true ->
        inside (at_pc (threads (run schedule (start prog)) k)) = true ->
        i = k)
  /\ (exists blocks : list (tag * string),
       out (run schedule (start prog)) = flat_map block blocks
       /\ NoDup (map fst blocks)
       /\ (forall i n s, In ((i, n), s) blocks ->
            exists em, nth_error (prog i) n = Some em
                       /\ (exists rest, full_text em = s ++ rest)
                       /\ (fault_free schedule = true ->
                           (n < seq (threads (run schedule (start prog)) i))%nat ->
                           s = full_text em))
       /\ (forall i n,
            (n < seq (threads (run schedule (start prog)) i))%nat ->
            exists s, In ((i, n), s) blocks)
       /\ (forall i n, In (i, n) (flushed (run schedule (start prog))) ->
            exists em, nth_error (prog i) n = Some em
                       /\ In ((i, n), full_text em) blocks)
       /\ (fault_free schedule = true ->
           forall i n,
             (n < seq (threads (run schedule (start prog)) i))%nat ->
             In (i, n) (flushed (run schedule (start prog)))
             /\ exists em, nth_error (prog i) n = Some em
                           /\ In ((i, n), full_text em) blocks))
  /\ (forall (i : nat) (em : emission) (rest : list emission),
        lock (run schedule (start prog)) = None ->
        todo (threads (run schedule (start prog)) i) = em :: rest ->
        sees (run (repeat (i, None) (String.length (full_text em) + 6))
                (run schedule (start prog)))
          i None
          (out (run schedule (start prog))
           ++ block ((i, seq (threads (run schedule (start prog)) i)),
                     full_text em))
          (flushed (run schedule (start prog))
           ++ [(i, seq (threads (run schedule (start prog)) i))])
          {| at_pc := Outside; todo := rest;
             seq := S (seq (threads (run schedule (start prog)) i)) |}).
Proof.
  destruct (run_inv prog schedule _ _ _ _ (Inv_start prog) (Flushes_start prog))
    as (past & cur & I & F).
  cbn [andb] in I, F.
  split; [exact HandlerFacts.emit_bracket|]. split; [|split; [|split]].
  - intros em. reflexivity.
  - intros i k. exact (Inv_exclusive prog _ _ _ _ i k I).
  - exact (Inv_blocks prog _ _ _ _ I F).
  - intros i em rest L T. apply solo_emission; [exact L | | exact T].
    exact (Inv_free prog _ _ _ _ i I L).
Qed.

End ThreadsFacts.

(** ** Floats: one rounding is within a relative [2^-53] *)

Module FloatFacts.
Import Exn Float.

Lemma digits2_pos_log2 (p : positive) :
  Zpos (digits2_pos p) = Z.log2 (Zpos p) + 1.
Proof.
  assert (S : forall q, digits2_pos q = Pos.size q).
  { induction q; cbn; congruence. }
  destruct p; cbn; rewrite ?S; lia.
Qed.

Lemma Zdigits2_bounds (m : Z) :
  0 < m -> 2 ^ (Zdigits2 m - 1) <= m < 2 ^ Zdigits2 m.
Proof.
  intros H. destruct m as [|p|p]; try lia.
  cbn [Zdigits2]. rewrite digits2_pos_log2.
  replace (Z.log2 (Z.pos p) + 1 - 1) with (Z.log2 (Z.pos p)) by lia.
  apply Z.log2_spec. lia.
Qed.

Lemma Zdigits2_unique (m d : Z) :
  0 < d -> 2 ^ (d - 1) <= m < 2 ^ d -> Zdigits2 m = d.
Proof.
  intros Hd H. assert (0 < m) by (pose proof (Z.pow_pos_nonneg 2 (d - 1)); lia).
  destruct m as [|p|p]; try lia.
  cbn [Zdigits2]. rewrite digits2_pos_log2.
  rewrite (Z.log2_unique (Z.pos p) (d - 1)); try lia.
  replace (Z.succ (d - 1)) with d by lia. exact H.
Qed.

Lemma shr_1_located (N D : Z) (mrs : shr_record) :
  0 < D -> 0 <= shr_m mrs -> located N D mrs ->
  located N (2 * D) (shr_1 mrs)
  /\ shr_m (shr_1 mrs) = shr_m mrs / 2.
Proof.
  intros HD Hm. destruct mrs as [m r s]. unfold located. cbn [shr_m shr_r shr_s] in *.
  destruct m as [|[p|p|]|p]; try lia; cbn [shr_1 shr_m shr_r shr_s orb Z.b2z];
    destruct r, s; cbn [orb Z.b2z]; intros H.
  all: try (split; [nia|]).
  all: try (apply (Z.div_unique _ 2 _ 1); lia).
  all: try (apply (Z.div_unique _ 2 _ 0); lia).
Qed.

Lemma iter_pos_shr_1_located (p : positive) :
  forall (N D : Z) (mrs : shr_record),
    0 < D -> 0 <= shr_m mrs -> located N D mrs ->
    located N (2 ^ Zpos p * D) (iter_pos shr_1 p mrs)
    /\ shr_m (iter_pos shr_1 p mrs) = shr_m mrs / 2 ^ Zpos p.
Proof.
  induction p as [p IH|p IH|]; intros N D mrs HD Hm H; cbn [iter_pos].
  - destruct (shr_1_located N D mrs HD Hm H) as [H1 M1].
    assert (Hm1 : 0 <= shr_m (shr_1 mrs)) by (rewrite M1; apply Z.div_pos; lia).
    destruct (IH N (2 * D) _ ltac:(lia) Hm1 H1) as [H2 M2].
    assert (P : 0 < 2 ^ Z.pos p) by (apply Z.pow_pos_nonneg; lia).
    assert (Hm2 : 0 <= shr_m (iter_pos shr_1 p (shr_1 mrs)))
      by (rewrite M2; apply Z.div_pos; lia).
    destruct (IH N (2 ^ Z.pos p * (2 * D)) _ ltac:(nia) Hm2 H2) as [H3 M3].
    rewrite (Pos2Z.inj_xI p), Z.pow_add_r, Z.pow_mul_r, Z.pow_1_r by lia.
    replace (2 ^ 2) with (2 * 2) by reflexivity.
    split.
    + replace ((2 * 2) ^ Z.pos p * 2 * D)
        with (2 ^ Z.pos p * (2 ^ Z.pos p * (2 * D))); [exact H3|].
      rewrite Z.pow_mul_l. ring.
    + rewrite M3, M2, M1, !Z.div_div by lia. f_equal.
      rewrite Z.pow_mul_l. ring.
  - assert (P : 0 < 2 ^ Z.pos p) by (apply Z.pow_pos_nonneg; lia).
    destruct (IH N D _ HD Hm H) as [H2 M2].
    assert (Hm2 : 0 <= shr_m (iter_pos shr_1 p mrs))
      by (rewrite M2; apply Z.div_pos; lia).
    destruct (IH N (2 ^ Z.pos p * D) _ ltac:(nia) Hm2 H2) as [H3 M3].
    rewrite (Pos2Z.inj_xO p), Z.pow_mul_r by lia.
    replace (2 ^ 2) with (2 * 2) by reflexivity.
    split.
    + replace ((2 * 2) ^ Z.pos p * D)
        with (2 ^ Z.pos p * (2 ^ Z.pos p * D)); [exact H3|].
      rewrite Z.pow_mul_l. ring.
    + rewrite M3, M2, !Z.div_div by lia. f_equal.
      rewrite Z.pow_mul_l. ring.
  - change (2 ^ 1) with 2. now apply shr_1_located.
Qed.

(** [shr] by [n >= 0] places keeps the position and divides the mantissa. *)
Lemma shr_located (N D : Z) (mrs : shr_record) (e n : Z) :
  0 < D -> 0 <= shr_m mrs -> 0 <= n -> located N D mrs ->
  snd (shr mrs e n) = e + n
  /\ located N (2 ^ n * D) (fst (shr mrs e n))
  /\ shr_m (fst (shr mrs e n)) = shr_m mrs / 2 ^ n.
Proof.
  intros HD Hm Hn H. destruct n as [|p|p]; try lia; cbn [shr fst snd].
  - rewrite Z.add_0_r, Z.pow_0_r, Z.mul_1_l, Z.div_1_r. auto.
  - destruct (iter_pos_shr_1_located p N D mrs HD Hm H). auto.
Qed.

Lemma shr_m_of_loc (m : Z) (l : location) : shr_m (shr_record_of_loc m l) = m.
Proof. destruct l as [|[]]; reflexivity. Qed.

Lemma fexp_normal (e : Z) : -1074 <= e - 53 -> fexp prec emax e = e - 53.
Proof. unfold fexp, emin, prec, emax. lia. Qed.

(** Rounding to nearest, ties to even, moves the mantissa by at most half
    a unit. *)
Lemma round_nearest_even_located (N D : Z) (mrs : shr_record) :
  0 < D -> located N D mrs ->
  shr_m mrs <= round_nearest_even (shr_m mrs) (loc_of_shr_record mrs) <= shr_m mrs + 1
  /\ 2 * Z.abs (round_nearest_even (shr_m mrs) (loc_of_shr_record mrs) * D - N) <= D.
Proof.
  intros HD. destruct mrs as [m r s]. unfold located.
  cbn [shr_m shr_r shr_s loc_of_shr_record].
  destruct r, s; cbn [Z.b2z round_nearest_even]; intros H;
    try destruct (Z.even m); split; lia.
Qed.

Lemma pow2_split (a b : Z) : 0 <= a -> 0 <= b -> 2 ^ (a + b) = 2 ^ a * 2 ^ b.
Proof. intros. now rewrite Z.pow_add_r. Qed.

Lemma binary_round_aux_correct (sx : bool) (mx ex : Z) (lx : location) (N D : Z) :
  0 < D -> 2 ^ 52 <= mx ->
  located N D (shr_record_of_loc mx lx) ->
  -1074 <= Zdigits2 mx + ex - 53 ->
  Zdigits2 mx + ex <= 1023 ->
  exists (mf : positive) (ef : Z),
    binary_round_aux prec emax sx mx ex lx = S754_finite sx mf ef
    /\ ex <= ef <= ex + Zdigits2 mx - 52
    /\ 2 ^ 52 <= Zpos mf < 2 ^ 53
    /\ 2 * Z.abs (Zpos mf * 2 ^ (ef - ex) * D - N) <= 2 ^ (ef - ex) * D.
Proof.
  intros HD Hmx Hloc Hlo Hhi.
  assert (Hpos : 0 < mx) by (change (2 ^ 52) with 4503599627370496 in Hmx; lia).
  pose proof (Zdigits2_bounds mx Hpos) as Hd.
  set (d := Zdigits2 mx) in *.
  assert (Hd53 : 53 <= d).
  { destruct (Z_lt_le_dec d 53) as [L|L]; [|exact L].
    assert (2 ^ d <= 2 ^ 52) by (apply Z.pow_le_mono_r; lia). lia. }
  set (n1 := d - 53).
  fold d. unfold binary_round_aux, shr_fexp. fold d.
  rewrite fexp_normal by lia.
  replace (d + ex - 53 - ex) with n1 by (unfold n1; lia).
  destruct (shr_located N D (shr_record_of_loc mx lx) ex n1 HD
              ltac:(rewrite shr_m_of_loc; lia) ltac:(unfold n1; lia) Hloc)
    as (E1 & L1 & M1).
  rewrite shr_m_of_loc in M1.
  destruct (shr (shr_record_of_loc mx lx) ex n1) as [mrs1 e1].
  cbn [fst snd] in *. subst e1.
  assert (P1 : 0 < 2 ^ n1) by (apply Z.pow_pos_nonneg; unfold n1; lia).
  assert (Hm1 : 2 ^ 52 <= shr_m mrs1 < 2 ^ 53).
  { rewrite M1. split.
    - apply Z.div_le_lower_bound; [lia|].
      replace (2 ^ n1 * 2 ^ 52) with (2 ^ (d - 1)); [lia|].
      rewrite <- pow2_split by (unfold n1; lia). f_equal. unfold n1. lia.
    - apply Z.div_lt_upper_bound; [lia|].
      replace (2 ^ n1 * 2 ^ 53) with (2 ^ d); [lia|].
      rewrite <- pow2_split by (unfold n1; lia). f_equal. unfold n1. lia. }
  destruct (round_nearest_even_located N (2 ^ n1 * D) mrs1 ltac:(nia) L1)
    as [R1 R2].
  set (m2 := round_nearest_even (shr_m mrs1) (loc_of_shr_record mrs1)) in *.
  change (2 ^ 52) with 4503599627370496 in *.
  change (2 ^ 53) with 9007199254740992 in *.
  destruct (Z_lt_le_dec m2 9007199254740992) as [Lt|Ge].
  - assert (D2 : Zdigits2 m2 = 53) by (apply Zdigits2_unique; cbn; lia).
    rewrite D2, fexp_normal by (unfold n1; lia).
    replace (53 + (ex + n1) - 53 - (ex + n1)) with 0 by lia.
    cbn [shr shr_record_of_loc shr_m].
    destruct m2 as [|mf|mf] eqn:Em2; try lia.
    replace (ex + n1 <=? emax - prec) with true
      by (symmetry; apply Z.leb_le; unfold emax, prec, n1; lia).
    exists mf, (ex + n1). split; [reflexivity|]. split; [unfold n1; lia|].
    split; [lia|].
    replace (ex + n1 - ex) with n1 by lia.
    replace (Z.pos mf * 2 ^ n1 * D) with (Z.pos mf * (2 ^ n1 * D)) by ring.
    exact R2.
  - assert (Em2 : m2 = 9007199254740992) by lia.
    rewrite Em2 in *.
    replace (Zdigits2 9007199254740992) with 54 by reflexivity.
    rewrite fexp_normal by (unfold n1; lia).
    replace (54 + (ex + n1) - 53 - (ex + n1)) with 1 by lia.
    cbn [shr shr_record_of_loc shr_m iter_pos shr_1 orb].
    replace (ex + n1 + 1 <=? emax - prec) with true
      by (symmetry; apply Z.leb_le; unfold emax, prec, n1; lia).
    exists 4503599627370496%positive, (ex + n1 + 1).
    split; [reflexivity|]. split; [unfold n1; lia|]. split; [lia|].
    replace (ex + n1 + 1 - ex) with (n1 + 1) by lia.
    rewrite pow2_split by (unfold n1; lia). change (2 ^ 1) with 2.
    nia.
Qed.

Lemma Qpow2_pos (e : Z) : (0 < (2 # 1) ^ e)%Q.
Proof. apply Qpower_0_lt. reflexivity. Qed.

Lemma Qpow2_plus (a b : Z) : ((2 # 1) ^ (a + b) == (2 # 1) ^ a * (2 # 1) ^ b)%Q.
Proof. apply Qpower_plus. discriminate. Qed.

Lemma Qpow2_inject (k : Z) : 0 <= k -> (inject_Z (2 ^ k) == (2 # 1) ^ k)%Q.
Proof. intros H. now rewrite Zpower_Qpower. Qed.

(** The rounded result is within a relative [2^-53] of the exact value
    [N / D * 2^ex]. *)
Lemma binary_round_aux_Q (mx ex : Z) (lx : location) (N D : Z) :
  0 < D -> 2 ^ 52 <= mx ->
  located N D (shr_record_of_loc mx lx) ->
  -1074 <= Zdigits2 mx + ex - 53 ->
  Zdigits2 mx + ex <= 1023 ->
  normal_pos (binary_round_aux prec emax false mx ex lx)
             ex (ex + Zdigits2 mx - 52)
  /\ (let r := to_Q (binary_round_aux prec emax false mx ex lx) in
      let x := (inject_Z N / inject_Z D * (2 # 1) ^ ex)%Q in
      - r <= two53 * (r - x) <= r)%Q.
Proof.
  intros HD Hmx Hloc Hlo Hhi.
  destruct (binary_round_aux_correct false mx ex lx N D HD Hmx Hloc Hlo Hhi)
    as (mf & ef & E & He & Hm & Hr).
  rewrite E. split; [exists mf, ef; auto|].
  cbn zeta. cbn [to_Q].
  set (k := ef - ex) in *.
  assert (Pk : 0 < 2 ^ k) by (apply Z.pow_pos_nonneg; unfold k; lia).
  assert (Zr : - (Zpos mf * 2 ^ k * D) <= 2 ^ 53 * (Zpos mf * 2 ^ k * D - N)
               <= Zpos mf * 2 ^ k * D).
  { change (2 ^ 52) with 4503599627370496 in *.
    change (2 ^ 53) with 9007199254740992 in *. nia. }
  set (V := Zpos mf * 2 ^ k) in *.
  assert (EV : (1 * inject_Z (Zpos mf) * (2 # 1) ^ ef
                == inject_Z V * (2 # 1) ^ ex)%Q).
  { replace ef with (k + ex) by (unfold k; lia).
    unfold V. rewrite Qpow2_plus, inject_Z_mult, Qpow2_inject by (unfold k; lia).
    ring. }
  rewrite EV.
  set (U := ((2 # 1) ^ ex)%Q). assert (HU : (0 < U)%Q) by apply Qpow2_pos.
  set (A := inject_Z V). set (n := inject_Z N). set (dd := inject_Z D).
  assert (Hdd : (0 < dd)%Q) by (unfold dd; change 0%Q with (inject_Z 0); rewrite <- Zlt_Qlt; exact HD).
  assert (Q1 : (- (A * dd) <= two53 * (A * dd - n) <= A * dd)%Q).
  { unfold A, dd, n, two53.
    rewrite <- !inject_Z_mult, <- inject_Z_opp.
    unfold Qminus. rewrite <- inject_Z_opp, <- inject_Z_plus, <- !inject_Z_mult.
    rewrite <- !Zle_Qle. lia. }
  set (y := (n / dd)%Q).
  assert (Ey : (n == y * dd)%Q) by (unfold y; field; lra).
  assert (Q2 : (- A <= two53 * (A - y) <= A)%Q).
  { destruct Q1 as [Q1a Q1b]. split.
    - assert ((0 <= dd * (two53 * (A - y) + A))%Q) by (rewrite Ey in Q1a; lra).
      assert ((0 <= two53 * (A - y) + A)%Q); [|lra].
      apply Qnot_lt_le. intros C.
      assert ((dd * (two53 * (A - y) + A) < dd * 0)%Q)
        by (apply Qmult_lt_l; assumption). lra.
    - assert ((0 <= dd * (A - two53 * (A - y)))%Q) by (rewrite Ey in Q1b; lra).
      assert ((0 <= A - two53 * (A - y))%Q); [|lra].
      apply Qnot_lt_le. intros C.
      assert ((dd * (A - two53 * (A - y)) < dd * 0)%Q)
        by (apply Qmult_lt_l; assumption). lra. }
  destruct Q2 as [Q2a Q2b]. split.
  - assert ((0 <= U * (two53 * (A - y) + A))%Q)
      by (apply Qmult_le_0_compat; lra). lra.
  - assert ((0 <= U * (A - two53 * (A - y)))%Q)
      by (apply Qmult_le_0_compat; lra). lra.
Qed.

Lemma Zdigits2_le (m b : Z) : 0 < m -> 0 <= b -> m < 2 ^ b -> Zdigits2 m <= b.
Proof.
  intros Hm Hb H. pose proof (Zdigits2_bounds m Hm) as [L _].
  destruct (Z_lt_le_dec b (Zdigits2 m)) as [C|C]; [|exact C].
  assert (2 ^ b <= 2 ^ (Zdigits2 m - 1)) by (apply Z.pow_le_mono_r; lia). lia.
Qed.

Lemma Zdigits2_ge (m a : Z) : 0 < m -> 2 ^ (a - 1) <= m -> a <= Zdigits2 m.
Proof.
  intros Hm H. pose proof (Zdigits2_bounds m Hm) as [_ U].
  destruct (Z_lt_le_dec (Zdigits2 m) a) as [C|C]; [|exact C].
  assert (0 <= Zdigits2 m) by (destruct m; cbn; lia).
  assert (2 ^ Zdigits2 m <= 2 ^ (a - 1)) by (apply Z.pow_le_mono_r; lia). lia.
Qed.

(** The product of two positive normal doubles, away from the ends of the
    exponent range. *)
Lemma SFmul_Q (x y : float) (lx hx ly hy : Z) :
  normal_pos x lx hx -> normal_pos y ly hy ->
  -1126 <= lx + ly -> hx + hy <= 917 ->
  normal_pos (SFmul prec emax x y) (lx + ly) (hx + hy + 54)
  /\ (- to_Q (SFmul prec emax x y)
      <= two53 * (to_Q (SFmul prec emax x y) - to_Q x * to_Q y)
      <= to_Q (SFmul prec emax x y))%Q.
Proof.
  intros (mx & ex & -> & Hmx & Hex) (my & ey & -> & Hmy & Hey) Hlo Hhi.
  cbn [SFmul xorb].
  assert (Hp : 2 ^ 104 <= Zpos (mx * my) < 2 ^ 106).
  { rewrite Pos2Z.inj_mul.
    change (2 ^ 104) with (2 ^ 52 * 2 ^ 52). change (2 ^ 106) with (2 ^ 53 * 2 ^ 53).
    change (2 ^ 52) with 4503599627370496 in *.
    change (2 ^ 53) with 9007199254740992 in *. nia. }
  assert (Hd : 105 <= Zdigits2 (Zpos (mx * my)) <= 106).
  { split; [apply Zdigits2_ge | apply Zdigits2_le]; try lia; apply Hp. }
  destruct (binary_round_aux_Q (Zpos (mx * my)) (ex + ey) loc_Exact
              (Zpos (mx * my)) 1) as [Hn Hq].
  - lia.
  - change (2 ^ 52) with 4503599627370496 in *.
    change (2 ^ 104) with 20282409603651670423947251286016 in *. lia.
  - unfold located. cbn. lia.
  - lia.
  - lia.
  - split.
    + destruct Hn as (m & e & E & Hm & He). exists m, e. repeat split; try lia; auto.
    + cbn zeta in Hq.
      assert (E : (inject_Z (Zpos (mx * my)) / inject_Z 1 * (2 # 1) ^ (ex + ey)
                   == to_Q (S754_finite false mx ex) * to_Q (S754_finite false my ey))%Q).
      { cbn [to_Q]. rewrite Pos2Z.inj_mul, inject_Z_mult, Qpow2_plus.
        change (inject_Z 1) with 1%Q. field. }
      rewrite E in Hq. exact Hq.
Qed.

Lemma new_location_located (q t r : Z) :
  0 < t -> 0 <= r < t ->
  located (t * q + r) t (shr_record_of_loc q (new_location t r)).
Proof.
  intros Ht Hr. unfold new_location, located.
  destruct (Z.even t) eqn:Ev.
  - unfold new_location_even. destruct (Z.eqb_spec r 0) as [->|Hn].
    + cbv [shr_record_of_loc shr_s shr_m shr_r Z.b2z]. ring.
    + destruct (Z.compare_spec (2 * r) t);
        cbv [shr_record_of_loc shr_s shr_m shr_r Z.b2z]; nia.
  - unfold new_location_odd. destruct (Z.eqb_spec r 0) as [->|Hn].
    + cbv [shr_record_of_loc shr_s shr_m shr_r Z.b2z]. ring.
    + assert (Od : Z.odd t = true) by (rewrite <- Z.negb_even, Ev; reflexivity).
      apply Z.odd_spec in Od as [u Hu].
      destruct (Z.compare_spec (2 * r + 1) t);
        cbv [shr_record_of_loc shr_s shr_m shr_r Z.b2z]; nia.
Qed.

(** A full mantissa with nothing beyond it is left as it is. *)
Lemma binary_round_aux_exact (sx : bool) (m : positive) (e : Z) :
  2 ^ 52 <= Zpos m < 2 ^ 53 -> -1074 <= e <= 971 ->
  binary_round_aux prec emax sx (Zpos m) e loc_Exact = S754_finite sx m e.
Proof.
  intros Hm He.
  assert (D : Zdigits2 (Zpos m) = 53) by (apply Zdigits2_unique; cbn; lia).
  unfold binary_round_aux, shr_fexp. rewrite D, fexp_normal by lia.
  replace (53 + e - 53 - e) with 0 by lia.
  cbn [shr shr_record_of_loc shr_m loc_of_shr_record round_nearest_even].
  rewrite D, fexp_normal by lia.
  replace (53 + e - 53 - e) with 0 by lia.
  cbn [shr shr_record_of_loc shr_m].
  replace (e <=? emax - prec) with true
    by (symmetry; apply Z.leb_le; unfold emax, prec; lia).
  reflexivity.
Qed.

Lemma iter_xO (n : positive) :
  forall p : positive, Zpos (Pos.iter xO p n) = Zpos p * 2 ^ Zpos n.
Proof.
  induction n as [|n IH] using Pos.peano_ind; intros p.
  - cbn [Pos.iter]. change (2 ^ 1) with 2. lia.
  - rewrite Pos.iter_succ, Pos2Z.inj_succ, Z.pow_succ_r by lia.
    rewrite Pos2Z.inj_xO, IH. ring.
Qed.

(** A small positive integer converts exactly, to a full mantissa. *)
Lemma of_int_small (z : Z) :
  0 < z < 2 ^ 53 ->
  exists (m : positive) (e : Z),
    of_int z = S754_finite false m e
    /\ 2 ^ 52 <= Zpos m < 2 ^ 53
    /\ -52 <= e <= 0
    /\ Zpos m = z * 2 ^ (- e).
Proof.
  intros Hz. destruct z as [|p|p]; try lia.
  unfold of_int. cbn [binary_normalize]. unfold binary_round.
  pose proof (Zdigits2_bounds (Zpos p) ltac:(lia)) as Bd.
  assert (Dp : 1 <= Zdigits2 (Zpos p) <= 53).
  { split; [apply Zdigits2_ge | apply Zdigits2_le]; cbn; lia. }
  cbn [Zdigits2] in Dp, Bd. set (d := Zpos (digits2_pos p)) in *.
  rewrite Z.add_0_r, fexp_normal by lia.
  unfold shl_align. rewrite Z.sub_0_r.
  destruct (Z.eq_dec d 53) as [E|N].
  - rewrite E. cbn [Z.sub Z.add Z.opp Z.pos_sub].
    exists p, 0. rewrite E in Bd.
    split; [apply binary_round_aux_exact; cbn in *; lia|].
    cbn in *. lia.
  - destruct (d - 53) as [|n|n] eqn:En; try lia.
    exists (Pos.iter xO p n), (Zneg n).
    assert (Hm : 2 ^ 52 <= Zpos (Pos.iter xO p n) < 2 ^ 53).
    { rewrite iter_xO.
      assert (E1 : 2 ^ (d - 1) * 2 ^ Zpos n = 2 ^ 52).
      { rewrite <- pow2_split by lia. f_equal. lia. }
      assert (E2 : 2 ^ d * 2 ^ Zpos n = 2 ^ 53).
      { rewrite <- pow2_split by lia. f_equal. lia. }
      assert (0 < 2 ^ Zpos n) by (apply Z.pow_pos_nonneg; lia).
      nia. }
    split; [apply binary_round_aux_exact; [exact Hm | lia]|].
    split; [exact Hm|]. split; [lia|].
    rewrite iter_xO. reflexivity.
Qed.

Lemma shifted_mantissa (m s : Z) :
  0 <= s ->
  match s with
  | 0 => m
  | Zpos _ => Z.shiftl m s
  | Zneg _ => 0
  end = m * 2 ^ s.
Proof.
  intros Hs. destruct s as [|ps|ps]; try lia.
  apply Z.shiftl_mul_pow2. lia.
Qed.

(** The quotient of two positive doubles, away from the ends of the
    exponent range. *)
Lemma SFdiv_Q (m1 m2 : positive) (e1 e2 : Z) :
  -1000 <= Zdigits2 (Zpos m1) + e1 - (Zdigits2 (Zpos m2) + e2) <= 1000 ->
  Zdigits2 (Zpos m1) <= Zdigits2 (Zpos m2) + 53 ->
  normal_pos (SFdiv prec emax (S754_finite false m1 e1) (S754_finite false m2 e2))
             (Zdigits2 (Zpos m1) + e1 - (Zdigits2 (Zpos m2) + e2) - 53)
             (Zdigits2 (Zpos m1) + e1 - (Zdigits2 (Zpos m2) + e2) - 51)
  /\ (- to_Q (SFdiv prec emax (S754_finite false m1 e1) (S754_finite false m2 e2))
      <= two53 * (to_Q (SFdiv prec emax (S754_finite false m1 e1)
                               (S754_finite false m2 e2))
                  - to_Q (S754_finite false m1 e1) / to_Q (S754_finite false m2 e2))
      <= to_Q (SFdiv prec emax (S754_finite false m1 e1) (S754_finite false m2 e2)))%Q.
Proof.
  intros HE Hd12.
  cbn [SFdiv xorb]. unfold SFdiv_core_binary.
  set (d1 := Zdigits2 (Zpos m1)) in *. set (d2 := Zdigits2 (Zpos m2)) in *.
  pose proof (Zdigits2_bounds (Zpos m1) ltac:(lia)) as Bd. fold d1 in Bd.
  pose proof (Zdigits2_bounds (Zpos m2) ltac:(lia)) as Bt. fold d2 in Bt.
  assert (P1 : 1 <= d1) by (apply Zdigits2_ge; cbn; lia).
  assert (P2 : 1 <= d2) by (apply Zdigits2_ge; cbn; lia).
  rewrite fexp_normal by lia.
  replace (Z.min (d1 + e1 - (d2 + e2) - 53) (e1 - e2))
    with (d1 + e1 - (d2 + e2) - 53) by lia.
  set (s := 53 + d2 - d1).
  replace (e1 - e2 - (d1 + e1 - (d2 + e2) - 53)) with s by (unfold s; lia).
  assert (Hs : 0 <= s) by (unfold s; lia).
  rewrite (shifted_mantissa (Zpos m1) s Hs).
  pose proof (Z_div_mod (Zpos m1 * 2 ^ s) (Zpos m2) ltac:(lia)) as DM.
  destruct (Z.div_eucl (Zpos m1 * 2 ^ s) (Zpos m2)) as [q r].
  destruct DM as [DM Hr].
  assert (Ps : 0 < 2 ^ s) by (apply Z.pow_pos_nonneg; lia).
  assert (E52 : 2 ^ (d1 - 1) * 2 ^ s = 2 ^ 52 * 2 ^ d2).
  { rewrite <- !pow2_split by lia. f_equal. unfold s. lia. }
  assert (E53 : 2 ^ d1 * 2 ^ s = 2 ^ 54 * 2 ^ (d2 - 1)).
  { rewrite <- !pow2_split by lia. f_equal. unfold s. lia. }
  assert (Pd2 : 0 < 2 ^ d2) by (apply Z.pow_pos_nonneg; lia).
  assert (Pd2' : 0 < 2 ^ (d2 - 1)) by (apply Z.pow_pos_nonneg; lia).
  assert (Hq : 2 ^ 52 <= q).
  { change (2 ^ 52) with 4503599627370496 in *. nia. }
  assert (Hq2 : q < 2 ^ 54).
  { change (2 ^ 54) with 18014398509481984 in *.
    change (2 ^ 52) with 4503599627370496 in *. nia. }
  assert (Hq0 : 0 < q) by (change (2 ^ 52) with 4503599627370496 in *; lia).
  assert (Dq : 53 <= Zdigits2 q <= 54).
  { split; [apply Zdigits2_ge | apply Zdigits2_le]; try lia; exact Hq. }
  destruct (binary_round_aux_Q q (d1 + e1 - (d2 + e2) - 53)
              (new_location (Zpos m2) r) (Zpos m1 * 2 ^ s) (Zpos m2))
    as [Hn HQ].
  - lia.
  - exact Hq.
  - rewrite DM. apply new_location_located; lia.
  - lia.
  - lia.
  - destruct Hn as (m & e & E & Hm & He). rewrite E in *. split.
    + exists m, e. repeat split; try lia.
    + cbn zeta in HQ.
      assert (EQ : (inject_Z (Zpos m1 * 2 ^ s) / inject_Z (Zpos m2)
                    * (2 # 1) ^ (d1 + e1 - (d2 + e2) - 53)
                    == to_Q (S754_finite false m1 e1)
                       / to_Q (S754_finite false m2 e2))%Q).
      { cbn [to_Q]. rewrite inject_Z_mult, Qpow2_inject by lia.
        replace (d1 + e1 - (d2 + e2) - 53) with (e1 + (- e2 + - s))
          by (unfold s; lia).
        rewrite !Qpow2_plus.
        assert (((2 # 1) ^ s * (2 # 1) ^ (- s) == 1)%Q) as I.
        { rewrite <- Qpow2_plus. now replace (s + - s) with 0 by lia. }
        assert (((2 # 1) ^ e2 * (2 # 1) ^ (- e2) == 1)%Q) as I2.
        { rewrite <- Qpow2_plus. now replace (e2 + - e2) with 0 by lia. }
        assert ((0 < inject_Z (Zpos m2))%Q) by reflexivity.
        pose proof (Qpow2_pos e2). pose proof (Qpow2_pos s).
        pose proof (Qpow2_pos (- s)). pose proof (Qpow2_pos (- e2)).
        set (a := ((2 # 1) ^ s)%Q) in *. set (b := ((2 # 1) ^ (- s))%Q) in *.
        set (c := ((2 # 1) ^ e2)%Q) in *. set (c' := ((2 # 1) ^ (- e2))%Q) in *.
        set (u := ((2 # 1) ^ e1)%Q) in *.
        set (x1 := inject_Z (Zpos m1)) in *. set (x2 := inject_Z (Zpos m2)) in *.
        setoid_replace (x1 * a / x2 * (u * (c' * b)))%Q
          with (x1 * u / x2 * c' * (a * b))%Q by (field; lra).
        rewrite I.
        setoid_replace (1 * x1 * u / (1 * x2 * c))%Q
          with (x1 * u / x2 * c' / (c * c'))%Q by (field; lra).
        rewrite I2. field. lra. }
      rewrite EQ in HQ. exact HQ.
Qed.

Lemma to_Q_of_int (z : Z) (m : positive) (e : Z) :
  -52 <= e <= 0 -> Zpos m = z * 2 ^ (- e) ->
  (to_Q (S754_finite false m e) == inject_Z z)%Q.
Proof.
  intros He Hm. cbn [to_Q]. rewrite Hm, inject_Z_mult, Qpow2_inject by lia.
  assert (((2 # 1) ^ (- e) * (2 # 1) ^ e == 1)%Q) as I.
  { rewrite <- Qpow2_plus. now replace (- e + e) with 0 by lia. }
  setoid_replace (1 * (inject_Z z * (2 # 1) ^ (- e)) * (2 # 1) ^ e)%Q
    with (inject_Z z * ((2 # 1) ^ (- e) * (2 # 1) ^ e))%Q by ring.
  rewrite I. ring.
Qed.

(** The quotient of two integers, [0 < d <= t < 2^53]. *)
Lemma truediv_Q (d t : Z) :
  0 < d <= t -> t < 2 ^ 53 ->
  exists q : float,
    truediv d t = Exn.Returned q
    /\ normal_pos q (-105) 1
    /\ (- to_Q q <= two53 * (to_Q q - inject_Z d / inject_Z t) <= to_Q q)%Q.
Proof.
  intros Hd Ht. unfold truediv, is_small.
  replace (t =? 0) with false by (symmetry; apply Z.eqb_neq; lia).
  replace (Z.abs d <? 2 ^ 53) with true by (symmetry; apply Z.ltb_lt; lia).
  replace (Z.abs t <? 2 ^ 53) with true by (symmetry; apply Z.ltb_lt; lia).
  cbn [andb].
  destruct (of_int_small d ltac:(lia)) as (m1 & e1 & E1 & M1 & X1 & V1).
  destruct (of_int_small t ltac:(lia)) as (m2 & e2 & E2 & M2 & X2 & V2).
  rewrite E1, E2.
  assert (D1 : Zdigits2 (Zpos m1) = 53) by (apply Zdigits2_unique; cbn; lia).
  assert (D2 : Zdigits2 (Zpos m2) = 53) by (apply Zdigits2_unique; cbn; lia).
  destruct (SFdiv_Q m1 m2 e1 e2) as [Hn HQ]; [rewrite D1, D2; lia | lia |].
  rewrite (to_Q_of_int d m1 e1 X1 V1), (to_Q_of_int t m2 e2 X2 V2) in HQ.
  destruct Hn as (m & e & E & Hm & He). rewrite E in *.
  exists (S754_finite false m e). split; [reflexivity|]. split; [|exact HQ].
  exists m, e. rewrite D1, D2 in He. repeat split; try lia.
Qed.

Lemma truediv_zero (t : Z) :
  0 < t < 2 ^ 53 -> truediv 0 t = Exn.Returned (S754_zero false).
Proof.
  intros Ht. unfold truediv, is_small.
  replace (t =? 0) with false by (symmetry; apply Z.eqb_neq; lia).
  replace (Z.abs t <? 2 ^ 53) with true by (symmetry; apply Z.ltb_lt; lia).
  destruct (of_int_small t Ht) as (m & e & E & _). rewrite E. reflexivity.
Qed.

Lemma Qmult_pos_cancel (c a : Q) : (0 < c -> 0 <= c * a -> 0 <= a)%Q.
Proof.
  intros Hc H. apply Qnot_lt_le. intros C.
  assert ((c * a < c * 0)%Q) by (apply Qmult_lt_l; assumption). lra.
Qed.

(** The integer a float is printed as is within one half of it. *)
Lemma round_half_even_Q (m : positive) (e : Z) :
  (- (1 # 2)
   <= inject_Z (round_half_even (Zpos m) e) - to_Q (S754_finite false m e)
   <= 1 # 2)%Q.
Proof.
  cbn [to_Q]. unfold round_half_even.
  destruct (Z.leb_spec 0 e) as [He|He].
  - rewrite inject_Z_mult, Qpow2_inject by lia. split; ring_simplify; discriminate.
  - set (k := - e). set (dd := 2 ^ k).
    assert (Hdd : 0 < dd) by (apply Z.pow_pos_nonneg; unfold k; lia).
    pose proof (Z.div_mod (Zpos m) dd ltac:(lia)) as DM.
    pose proof (Z.mod_pos_bound (Zpos m) dd Hdd) as Hr.
    set (q := Zpos m / dd) in *. set (r := Zpos m mod dd) in *.
    set (p := match 2 * r ?= dd with
              | Eq => if Z.even q then q else q + 1
              | Lt => q
              | Gt => q + 1
              end).
    assert (Zf : - dd <= 2 * (p * dd - Zpos m) <= dd).
    { unfold p. destruct (Z.compare_spec (2 * r) dd);
        try destruct (Z.even q); nia. }
    set (y := (1 * inject_Z (Zpos m) * (2 # 1) ^ e)%Q).
    set (ddq := inject_Z dd).
    assert (Hq : (0 < ddq)%Q)
      by (unfold ddq; change 0%Q with (inject_Z 0); rewrite <- Zlt_Qlt; exact Hdd).
    assert (Ey : (y * ddq == inject_Z (Zpos m))%Q).
    { unfold y, ddq, dd. rewrite Qpow2_inject by (unfold k; lia).
      assert (((2 # 1) ^ e * (2 # 1) ^ k == 1)%Q) as I.
      { rewrite <- Qpow2_plus. now replace (e + k) with 0 by (unfold k; lia). }
      setoid_replace (1 * inject_Z (Z.pos m) * (2 # 1) ^ e * (2 # 1) ^ k)%Q
        with (inject_Z (Z.pos m) * ((2 # 1) ^ e * (2 # 1) ^ k))%Q by ring.
      rewrite I. ring. }
    assert (Qf : (- ddq <= 2 * (inject_Z p * ddq - inject_Z (Zpos m)) <= ddq)%Q).
    { unfold ddq. rewrite <- inject_Z_mult, <- inject_Z_opp.
      unfold Qminus. rewrite <- inject_Z_opp, <- inject_Z_plus.
      change 2%Q with (inject_Z 2). rewrite <- inject_Z_mult.
      rewrite <- !Zle_Qle. lia. }
    destruct Qf as [Qa Qb]. rewrite <- Ey in Qa, Qb. split.
    + assert ((0 <= ddq * (inject_Z p - y + (1 # 2)))%Q) by lra.
      assert ((0 <= inject_Z p - y + (1 # 2))%Q)
        by (eapply Qmult_pos_cancel; eauto). lra.
    + assert ((0 <= ddq * ((1 # 2) - (inject_Z p - y)))%Q) by lra.
      assert ((0 <= (1 # 2) - (inject_Z p - y))%Q)
        by (eapply Qmult_pos_cancel; eauto). lra.
Qed.

Lemma hundred_normal : normal_pos hundred (-46) (-46).
Proof.
  exists 7036874417766400%positive, (-46). repeat split; cbn; lia.
Qed.

Lemma hundred_Q : (to_Q hundred == 100)%Q.
Proof. reflexivity. Qed.

(** The percentage printed for [d / t] is an integer nearest to
    [100 * d / t]. *)
Lemma percent_nearest (d t : Z) :
  0 < d <= t -> t <= 2 ^ 44 ->
  exists (q : float) (m : positive) (e : Z),
    truediv d t = Exn.Returned q
    /\ SFmul prec emax q hundred = S754_finite false m e
    /\ 2 * Z.abs (round_half_even (Zpos m) e * t - 100 * d) <= t.
Proof.
  intros Hd Ht.
  destruct (truediv_Q d t Hd) as (q & Eq & Nq & Hq).
  { change (2 ^ 44) with 17592186044416 in Ht.
    change (2 ^ 53) with 9007199254740992. lia. }
  destruct (SFmul_Q q hundred _ _ _ _ Nq hundred_normal) as [Np Hp]; try lia.
  destruct Np as (m & e & Em & Hm & He).
  exists q, m, e. split; [exact Eq|]. split; [exact Em|].
  rewrite Em, hundred_Q in Hp.
  pose proof (round_half_even_Q m e) as Hr.
  set (p := round_half_even (Zpos m) e) in *.
  set (Pv := to_Q (S754_finite false m e)) in *.
  set (Qv := to_Q q) in *.
  set (tq := inject_Z t). set (dq := inject_Z d).
  assert (Htq : (0 < tq)%Q)
    by (unfold tq; change 0%Q with (inject_Z 0); rewrite <- Zlt_Qlt; lia).
  assert (Htq2 : (tq <= 17592186044416)%Q).
  { unfold tq. change 17592186044416%Q with (inject_Z (2 ^ 44)).
    rewrite <- Zle_Qle. exact Ht. }
  assert (Hdq : (0 < dq <= tq)%Q).
  { unfold dq, tq. change 0%Q with (inject_Z 0).
    rewrite <- Zlt_Qlt, <- Zle_Qle. lia. }
  fold tq dq in Hq.
  set (X := (dq / tq)%Q) in *.
  assert (EX : (X * tq == dq)%Q) by (unfold X; field; lra).
  assert (HX : (0 <= X <= 1)%Q).
  { split.
    - apply (Qmult_pos_cancel tq); [exact Htq|]. lra.
    - assert ((0 <= 1 - X)%Q); [|lra].
      apply (Qmult_pos_cancel tq); [exact Htq|]. lra. }
  unfold two53 in *.
  change (inject_Z (2 ^ 53)) with 9007199254740992%Q in *.
  assert (B : (- ((1 # 2) + (201 # 9007199254740992))
               <= inject_Z p - 100 * X
               <= (1 # 2) + (201 # 9007199254740992))%Q) by lra.
  destruct B as [Ba Bb].
  assert (Ma : (0 <= tq * (inject_Z p - 100 * X
                           + ((1 # 2) + (201 # 9007199254740992))))%Q)
    by (apply Qmult_le_0_compat; lra).
  assert (Mb : (0 <= tq * ((1 # 2) + (201 # 9007199254740992)
                           - (inject_Z p - 100 * X)))%Q)
    by (apply Qmult_le_0_compat; lra).
  assert (F : - (t + 1) < 2 * (p * t) - 200 * d < t + 1).
  { split.
    - rewrite Zlt_Qlt. unfold Z.sub.
      rewrite inject_Z_opp, !inject_Z_plus, inject_Z_opp, !inject_Z_mult.
      fold tq dq. change (inject_Z 2) with 2%Q. change (inject_Z 200) with 200%Q.
      change (inject_Z 1) with 1%Q. lra.
    - rewrite Zlt_Qlt. unfold Z.sub.
      rewrite !inject_Z_plus, inject_Z_opp, !inject_Z_mult.
      fold tq dq. change (inject_Z 2) with 2%Q. change (inject_Z 200) with 200%Q.
      change (inject_Z 1) with 1%Q. lra. }
  lia.
Qed.

End FloatFacts.

(** ** Progress lines *)

Module ProgressFacts.
Import Py Exn Eff Handler Logging Float FloatFacts StrFacts.

(** With a margin of one half, the integer is the rounded ratio unless the
    ratio lies halfway between two integers. *)
Lemma nearest_unique (n t p : Z) :
  0 < t -> 2 * Z.abs (p * t - n) <= t -> 2 * (n mod t) <> t ->
  p = round_ratio_half_even n t.
Proof.
  intros Ht Hp Hn. unfold round_ratio_half_even.
  pose proof (Z.div_mod n t ltac:(lia)) as DM.
  pose proof (Z.mod_pos_bound n t Ht) as Hr.
  set (q := n / t) in *. set (r := n mod t) in *.
  destruct (Z.compare_spec (2 * r) t) as [E|L|G]; [contradiction| |].
  - assert (p - q < 1) by nia. assert (-1 < p - q) by nia. lia.
  - assert (p - q < 2) by nia. assert (0 < p - q) by nia. lia.
Qed.

(** The text of a progress line, for [0 <= done <= total <= 2^44]. *)
Lemma progress_text_nearest (done total : Z) :
  0 <= done <= total -> 0 < total <= 2 ^ 44 ->
  exists p : Z,
    progress_text done total
    = Returned (str_int done ++ " of " ++ str_int total ++ " steps ("
                ++ str_int p ++ "%) done")
    /\ 2 * Z.abs (p * total - 100 * done) <= total.
Proof.
  intros Hd Ht. unfold progress_text.
  destruct (Z.eq_dec done 0) as [->|Hn].
  - exists 0. rewrite truediv_zero by (change (2 ^ 44) with 17592186044416 in Ht;
                                       change (2 ^ 53) with 9007199254740992; lia).
    split; [reflexivity | lia].
  - destruct (percent_nearest done total ltac:(lia) ltac:(lia))
      as (q & m & e & Eq & Em & Hp).
    exists (round_half_even (Zpos m) e). rewrite Eq. split; [|exact Hp].
    unfold format_percent0. rewrite Em. cbn [format_f0 append].
    now rewrite append_assoc.
Qed.

Section WithJson.

Variable pyobj : Type.
Variable json_dumps : list (string * pyobj) -> outcome string.

(** C1, as the code has it.  With [quiet] off, a progress event with
    [0 <= done <= total], [0 < total <= 2^44] makes one call at [INFO]
    with the text [done of total steps (p%) done], where [p] is an integer
    nearest to [100 * done / total]: it is the ratio rounded to the nearest
    integer (ties to even) whenever the ratio is not halfway between two
    integers; at a tie either neighbour can come out, as the percentage is
    the rounding of the double [(done / total) * 100.0]. *)
Theorem progress_line_nearest_percent (self : Logger pyobj) (done total : Z) :
  quiet self = Some false ->
  0 <= done <= total ->
  0 < total <= 2 ^ 44 ->
  exists p : Z,
    console_handler json_dumps self (progress done total)
    = ([(INFO, str_int done ++ " of " ++ str_int total ++ " steps ("
               ++ str_int p ++ "%) done")],
       Returned tt)
    /\ 2 * Z.abs (p * total - 100 * done) <= total
    /\ (2 * ((100 * done) mod total) <> total ->
        p = round_ratio_half_even (100 * done) total).
Proof.
  intros Q Hd Ht.
  destruct (progress_text_nearest done total Hd Ht) as (p & E & Hp).
  exists p. split; [|split; [exact Hp|]].
  - unfold console_handler, get_quiet, bind, lift, tell, ret. rewrite Q, E.
    reflexivity.
  - intros Hn. apply nearest_unique; [lia | exact Hp | exact Hn].
Qed.

End WithJson.

(** The events of the specification's two examples, 3 of 10 and 1 of 3. *)
Lemma progress_line_nearest_percent_witness :
  quiet (@setup_logger unit Logger_init "Linux" {| isatty := Some true |}
           {| isatty := Some true |} None false false false false false
           false false) = Some false
  /\ 0 <= 1 <= 3 /\ 0 < 3 <= 2 ^ 44
  /\ exists p : Z,
       console_handler (fun _ : list (string * unit) => Returned "{}")
         (setup_logger Logger_init "Linux" {| isatty := Some true |}
            {| isatty := Some true |} None false false false false false
            false false)
         (progress 1 3)
       = ([(INFO, str_int 1 ++ " of " ++ str_int 3 ++ " steps ("
                  ++ str_int p ++ "%) done")],
          Returned tt)
       /\ 2 * Z.abs (p * 3 - 100 * 1) <= 3
       /\ (2 * ((100 * 1) mod 3) <> 3 -> p = round_ratio_half_even (100 * 1) 3).
Proof.
  split; [reflexivity|]. split; [lia|]. split; [cbn; lia|].
  apply (progress_line_nearest_percent unit (fun _ => Returned "{}")
           (setup_logger Logger_init "Linux" {| isatty := Some true |}
              {| isatty := Some true |} None false false false false false
              false false) 1 3); [reflexivity | lia | cbn; lia].
Defined.

(** The two examples of the specification, computed. *)
Lemma progress_examples :
  console_handler (fun _ : list (string * unit) => Returned "{}")
    (setup_logger Logger_init "Linux" {| isatty := Some true |}
       {| isatty := Some true |} None false false false false false false false)
    (progress 3 10)
  = ([(INFO, "3 of 10 steps (30%) done")], Returned tt)
  /\ console_handler (fun _ : list (string * unit) => Returned "{}")
       (setup_logger Logger_init "Linux" {| isatty := Some true |}
          {| isatty := Some true |} None false false false false false false
          false)
       (progress 1 3)
     = ([(INFO, "1 of 3 steps (33%) done")], Returned tt).
Proof. split; vm_compute; reflexivity. Qed.

(** C1, as the claim words it, fails: 100 * 23 / 40 is 57.5, which rounds
    to 58 (to even as well as upwards), and the line says 57%.  The double
    nearest to 23/40 lies below it, and its product with 100.0 rounds to
    the double just below 57.5. *)
Lemma progress_23_of_40 :
  console_handler (fun _ : list (string * unit) => Returned "{}")
    (setup_logger Logger_init "Linux" {| isatty := Some true |}
       {| isatty := Some true |} None false false false false false false false)
    (progress 23 40)
  = ([(INFO, "23 of 40 steps (57%) done")], Returned tt)
  /\ round_ratio_half_even (100 * 23) 40 = 58
  /\ round_ratio_half_up (100 * 23) 40 = 58
  /\ console_handler (fun _ : list (string * unit) => Returned "{}")
       (setup_logger Logger_init "Linux" {| isatty := Some true |}
          {| isatty := Some true |} None false false false false false false
          false)
       (progress 23 40)
     <> ([(INFO, str_int 23 ++ " of " ++ str_int 40 ++ " steps ("
                 ++ str_int (round_ratio_half_even (100 * 23) 40)
                 ++ "%) done")],
         Returned tt).
Proof.
  split; [vm_compute; reflexivity|]. split; [reflexivity|].
  split; [reflexivity|]. vm_compute. discriminate.
Qed.

End ProgressFacts.

(** ** More on resource formatting *)

Module ResourcesMore.
Import Py Resources More StrFacts ResourcesFacts.

Lemma visible_pairs_app (r1 r2 : resources) :
  visible_pairs (r1 ++ r2)%list = (visible_pairs r1 ++ visible_pairs r2)%list.
Proof.
  induction r1 as [|[name value] rest IH]; [reflexivity|].
  cbn [app visible_pairs].
  destruct ((name =? "_cores")%string || (name =? "_nodes")%string);
    [exact IH | cbn [app]; now rewrite IH].
Qed.

Lemma comma_joined_app (a b : list string) :
  comma_joined (a ++ b)%list
  = match a, b with
    | [], _ => comma_joined b
    | _, [] => comma_joined a
    | _, _ => comma_joined a ++ ", " ++ comma_joined b
    end.
Proof.
  induction a as [|x a IH]; [reflexivity|].
  destruct b as [|y b]; [now rewrite app_nil_r|].
  destruct a as [|x' a]; [reflexivity|].
  change (comma_joined ((x :: x' :: a) ++ y :: b)%list)
    with (x ++ ", " ++ comma_joined ((x' :: a) ++ y :: b)%list).
  rewrite IH.
  change (comma_joined (x :: x' :: a)) with (x ++ ", " ++ comma_joined (x' :: a)).
  now rewrite !append_assoc.
Qed.

Lemma format_resources_visible (r : resources) :
  format_resources r = comma_joined (visible_pairs r).
Proof.
  unfold format_resources, format_resources_with.
  now rewrite join_comma_joined, filter_map_visible.
Qed.

Lemma all_internal_visible (r : resources) :
  all_internal r = match visible_pairs r with [] => true | _ => false end.
Proof.
  destruct (visible_pairs r) eqn:V.
  - now apply visible_pairs_nil.
  - destruct (all_internal r) eqn:A; [|reflexivity].
    apply visible_pairs_nil in A. congruence.
Qed.

(** X1. Formatting a mapping made of two parts joins the texts of the
    parts with a comma and a space, and a part without a user-facing key
    contributes nothing, not even a separator. *)
Theorem format_resources_app (r1 r2 : resources) :
  format_resources (r1 ++ r2)%list
  = if all_internal r1 then format_resources r2
    else if all_internal r2 then format_resources r1
    else format_resources r1 ++ ", " ++ format_resources r2.
Proof.
  rewrite !format_resources_visible, !all_internal_visible, visible_pairs_app,
    comma_joined_app.
  destruct (visible_pairs r1), (visible_pairs r2); reflexivity.
Qed.

(** X2. An entry under [_cores] or [_nodes] leaves no trace, wherever it
    stands in the mapping and whatever its value: the text is that of the
    mapping without it. *)
Theorem format_resources_ignores_internal (r1 r2 : resources) (value : pyval) :
  format_resources (r1 ++ ("_cores", value) :: r2)%list
  = format_resources (r1 ++ r2)%list%list
  /\ format_resources (r1 ++ ("_nodes", value) :: r2)%list
     = format_resources (r1 ++ r2)%list.
Proof.
  rewrite !format_resources_visible, !visible_pairs_app. split; reflexivity.
Qed.

Lemma names_visible (r : resources) :
  filter (fun n => negb (str_in n omit_resources_default)) (map fst r)
  = visible_names r.
Proof.
  induction r as [|[name value] rest IH]; [reflexivity|].
  cbn [map fst filter visible_names].
  replace (str_in name omit_resources_default)
    with ((name =? "_cores")%string || (name =? "_nodes")%string)
    by (unfold str_in, omit_resources_default; cbn [existsb];
        now rewrite orb_false_r).
  destruct ((name =? "_cores")%string || (name =? "_nodes")%string); cbn [negb];
    [exact IH | now rewrite IH].
Qed.

Lemma visible_names_app (r1 r2 : resources) :
  visible_names (r1 ++ r2)%list = (visible_names r1 ++ visible_names r2)%list.
Proof.
  induction r1 as [|[name value] rest IH]; [reflexivity|].
  cbn [app visible_names].
  destruct ((name =? "_cores")%string || (name =? "_nodes")%string);
    [exact IH | cbn [app]; now rewrite IH].
Qed.

Lemma visible_names_pairs (r : resources) :
  List.length (visible_names r) = List.length (visible_pairs r).
Proof.
  induction r as [|[name value] rest IH]; [reflexivity|].
  cbn [visible_names visible_pairs].
  destruct ((name =? "_cores")%string || (name =? "_nodes")%string);
    [exact IH | cbn [List.length]; now rewrite IH].
Qed.

Lemma format_resource_names_visible (r : resources) :
  format_resource_names r = comma_joined (visible_names r).
Proof.
  unfold format_resource_names. now rewrite join_comma_joined, names_visible.
Qed.

(** X3. [format_resource_names] lists, joined by a comma and a space, the
    keys that [format_resources] shows, as many and in the same order; it
    does not look at the values; and it composes over the parts of a
    mapping as [format_resources] does. *)
Theorem format_resource_names_correct :
  (forall r, format_resource_names r = comma_joined (visible_names r))
  /\ (forall r, List.length (visible_names r) = List.length (visible_pairs r))
  /\ (forall r r', map fst r = map fst r' ->
                   format_resource_names r = format_resource_names r')
  /\ (forall r1 r2,
        format_resource_names (r1 ++ r2)%list
        = if all_internal r1 then format_resource_names r2
          else if all_internal r2 then format_resource_names r1
          else format_resource_names r1 ++ ", " ++ format_resource_names r2).
Proof.
  split; [exact format_resource_names_visible|].
  split; [exact visible_names_pairs|]. split.
  - intros r r' H. unfold format_resource_names. now rewrite H.
  - intros r1 r2.
    rewrite !format_resource_names_visible, !all_internal_visible,
      visible_names_app, comma_joined_app.
    pose proof (visible_names_pairs r1) as L1.
    pose proof (visible_names_pairs r2) as L2.
    destruct (visible_names r1), (visible_pairs r1); try discriminate;
      destruct (visible_names r2), (visible_pairs r2); try discriminate;
      reflexivity.
Qed.

End ResourcesMore.

(** ** More on the stream handler *)

Module HandlerMore.
Import Py Exn Eff Handler More StrFacts HandlerFacts.

Lemma occurs_append (c : ascii) (a b : string) :
  occurs c (a ++ b) = occurs c a || occurs c b.
Proof.
  induction a as [|x a IH]; [reflexivity|].
  cbn [append occurs]. now rewrite IH, orb_assoc.
Qed.

Lemma init_nocolor (platform_system : string) (nocolor_arg : bool) (s : Stream)
    (timestamp_arg : bool) :
  nocolor_arg = true \/ is_tty s = false \/ platform_system = "Windows" ->
  nocolor (init platform_system nocolor_arg s timestamp_arg) = true.
Proof.
  cbn [init nocolor]. intros [-> | [-> | ->]]; cbn.
  - reflexivity.
  - now rewrite orb_true_r.
  - now rewrite orb_true_r.
Qed.

(** X4. A handler built with [nocolor], or on a stream that is not a
    terminal (or has no [isatty]), or on Windows, never puts an escape
    character on the stream: the decorated text has none unless the message
    or the time stamp brings one. *)
Theorem plain_output_has_no_escape (platform_system : string)
    (nocolor_arg : bool) (s : Stream) (timestamp_arg : bool)
    (asctime : string) (record : LogRecord) :
  nocolor_arg = true \/ is_tty s = false \/ platform_system = "Windows" ->
  occurs ESC_char (message record) = false ->
  occurs ESC_char asctime = false ->
  occurs ESC_char
    (decorate (init platform_system nocolor_arg s timestamp_arg) asctime record)
  = false.
Proof.
  intros H M A. rewrite decorate_cases, (init_nocolor _ _ _ _ H).
  cbn [negb andb init timestamp]. rewrite occurs_append, M.
  destruct timestamp_arg; [|reflexivity].
  rewrite !occurs_append, A. reflexivity.
Qed.

(** A log redirected to a file ([isatty()] is false), with time stamps. *)
Lemma plain_output_has_no_escape_witness :
  (false = true \/ is_tty {| isatty := Some false |} = false \/ "Linux" = "Windows")
  /\ occurs ESC_char
       (decorate (init "Linux" false {| isatty := Some false |} true)
          "Wed Nov  4 08:00:00 2026"
          {| levelname := "INFO"; message := "1 of 3 steps (33%) done" |})
     = false.
Proof.
  split; [right; left; reflexivity|].
  apply (plain_output_has_no_escape "Linux" false {| isatty := Some false |} true
           "Wed Nov  4 08:00:00 2026"
           {| levelname := "INFO"; message := "1 of 3 steps (33%) done" |});
    [right; left; reflexivity | reflexivity | reflexivity].
Defined.

Lemma color_sequence_length (name : string) :
  contains colors name = true ->
  String.length (COLOR_SEQ (30 + subscript colors name)) = 5%nat.
Proof.
  unfold contains, subscript, colors. cbn [lookup].
  repeat match goal with
         | |- context [if (?a =? name)%string then _ else _] =>
             destruct (a =? name)%string; [reflexivity|]
         end.
  discriminate.
Qed.

(** X5. Colour only wraps the text: with or without colour the handler
    produces the same time stamp and message, and a coloured record has, in
    addition, a colour sequence of five characters in front and the reset
    sequence of four characters behind. *)
Theorem color_only_wraps (self : ColorizingStreamHandler) (asctime : string)
    (record : LogRecord) :
  decorate self asctime record
  = (if negb (nocolor self) && contains colors (levelname record)
     then COLOR_SEQ (30 + subscript colors (levelname record))
          ++ decorate (without_color self) asctime record ++ RESET_SEQ
     else decorate (without_color self) asctime record)
  /\ String.length (decorate self asctime record)
     = (String.length (decorate (without_color self) asctime record)
        + (if negb (nocolor self) && contains colors (levelname record)
           then 9 else 0))%nat.
Proof.
  assert (P : decorate (without_color self) asctime record
              = (if timestamp self then "[" ++ asctime ++ "] " else "")
                ++ message record).
  { now rewrite decorate_cases. }
  assert (E : decorate self asctime record
              = (if negb (nocolor self) && contains colors (levelname record)
                 then COLOR_SEQ (30 + subscript colors (levelname record))
                      ++ decorate (without_color self) asctime record ++ RESET_SEQ
                 else decorate (without_color self) asctime record)).
  { rewrite P, decorate_cases.
    destruct (negb (nocolor self) && contains colors (levelname record));
      [|reflexivity].
    now rewrite append_assoc. }
  split; [exact E|]. rewrite E.
  destruct (negb (nocolor self) && contains colors (levelname record)) eqn:C.
  - apply andb_true_iff in C as [_ C].
    rewrite !length_append, (color_sequence_length _ C). cbn. lia.
  - lia.
Qed.

Lemma prefix_refl (s : string) : String.prefix s s = true.
Proof.
  induction s as [|c s IH]; [reflexivity|].
  cbn. destruct (ascii_dec c c); [exact IH | contradiction].
Qed.

Lemma prefix_substring (n : nat) (s t : string) :
  String.prefix (substring 0 n s) (s ++ t) = true.
Proof.
  revert n. induction s as [|c s IH]; intros n.
  - destruct n; apply prefix_empty.
  - destruct n as [|n]; [apply prefix_empty|].
    cbn. destruct (ascii_dec c c); [apply IH | contradiction].
Qed.

Lemma prefix_append_same (a x y : string) :
  String.prefix (a ++ x) (a ++ y) = String.prefix x y.
Proof.
  induction a as [|c a IH]; [reflexivity|].
  cbn. destruct (ascii_dec c c); [exact IH | contradiction].
Qed.

(** What the [stream.write] calls of [emit] leave on the stream. *)
Lemma emit_written (f : faults) (self : ColorizingStreamHandler)
    (asctime : string) (record : LogRecord) :
  written (effects (emit f self asctime record))
  = match f OpFormat, f OpWriteMessage, f OpWriteTerminator with
    | Some _, _, _ => ""
    | None, Some _, _ =>
        substring 0 (sent f OpWriteMessage) (decorate self asctime record)
    | None, None, Some _ =>
        decorate self asctime record
        ++ substring 0 (sent f OpWriteTerminator) (terminator self)
    | None, None, None => decorate self asctime record ++ terminator self
    end
  /\ forall is_stderr : bool,
       on_stream is_stderr (effects (emit f self asctime record))
       = written (effects (emit f self asctime record))
         ++ (if is_stderr && handled (effects (emit f self asctime record))
             then report f else "").
Proof.
  rewrite emit_unfold. unfold first_fault, emit_try, perform, write, bind, tell,
    raise, effects, result.
  set (d := decorate self asctime record). set (t := terminator self).
  destruct (f OpFormat) as [e|]; [|destruct (f OpWriteMessage) as [e|];
    [|destruct (f OpWriteTerminator) as [e|]; [|destruct (f OpFlush) as [e|]]]];
    cbn [fst snd app];
    try (rewrite (emit_except_cases (handleError f) e), handleError_cases;
         destruct (isinstance e (Builtin BrokenPipeError));
         [| destruct (isinstance e (Builtin KeyboardInterrupt)
                      || isinstance e (Builtin SystemExit));
            [| destruct (isinstance e (Builtin Exception))]]);
    cbn [fst snd app written on_stream handled existsb orb];
    rewrite ?append_nil_r, ?append_assoc;
    (split; [reflexivity | intros [|]; cbn [andb];
                           rewrite ?append_nil_r, ?append_assoc; reflexivity]).
Qed.

(** X6. What [emit] leaves on the stream, whatever fails, a write in
    mid-text included.  Its own writes leave a beginning of the line, the
    decorated message followed by the terminator: nothing when formatting
    fails; of the message what the failing write had sent, and no
    terminator; the message and of the terminator what the failing write
    had sent; the whole line otherwise, also when the flush fails.  The
    flush completes exactly when nothing failed.  When [handleError] is
    called and the stream is [sys.stderr], its report comes behind that
    text; nothing else reaches the stream. *)
Theorem emit_writes_message_then_terminator (f : faults)
    (self : ColorizingStreamHandler) (asctime : string) (record : LogRecord) :
  String.prefix (written (effects (emit f self asctime record)))
    (decorate self asctime record ++ terminator self) = true
  /\ written (effects (emit f self asctime record))
     = match f OpFormat, f OpWriteMessage, f OpWriteTerminator with
       | Some _, _, _ => ""
       | None, Some _, _ =>
           substring 0 (sent f OpWriteMessage) (decorate self asctime record)
       | None, None, Some _ =>
           decorate self asctime record
           ++ substring 0 (sent f OpWriteTerminator) (terminator self)
       | None, None, None => decorate self asctime record ++ terminator self
       end
  /\ (In Flush (effects (emit f self asctime record)) <-> first_fault f = None)
  /\ (forall is_stderr : bool,
        on_stream is_stderr (effects (emit f self asctime record))
        = written (effects (emit f self asctime record))
          ++ (if is_stderr && handled (effects (emit f self asctime record))
              then report f else ""))
  /\ (first_fault f = None ->
      emit f self asctime record
      = ([Acquire; Format; Write (decorate self asctime record);
          Write (terminator self); Flush; Release], Returned tt)).
Proof.
  destruct (emit_written f self asctime record) as [W S].
  split; [|split; [exact W | split; [|split; [exact S|]]]].
  - rewrite W.
    destruct (f OpFormat); [apply prefix_empty|].
    destruct (f OpWriteMessage); [apply prefix_substring|].
    destruct (f OpWriteTerminator).
    + rewrite prefix_append_same.
      rewrite <- (append_nil_r (terminator self)) at 2. apply prefix_substring.
    + apply prefix_refl.
  - rewrite emit_unfold. unfold first_fault, emit_try, perform, write, bind,
      tell, raise, effects, result.
    destruct (f OpFormat) as [e|]; [|destruct (f OpWriteMessage) as [e|];
      [|destruct (f OpWriteTerminator) as [e|]; [|destruct (f OpFlush) as [e|]]]];
      cbn [fst snd app];
      try (rewrite (emit_except_cases (handleError f) e), handleError_cases;
           destruct (isinstance e (Builtin BrokenPipeError));
           [| destruct (isinstance e (Builtin KeyboardInterrupt)
                        || isinstance e (Builtin SystemExit));
              [| destruct (isinstance e (Builtin Exception))]]);
      cbn [fst snd app In]; split; try discriminate; auto 10;
      intros H; intuition discriminate.
  - rewrite emit_unfold. unfold first_fault, emit_try, perform, write, bind,
      tell, raise, effects, result.
    destruct (f OpFormat); [discriminate|].
    destruct (f OpWriteMessage); [discriminate|].
    destruct (f OpWriteTerminator); [discriminate|].
    destruct (f OpFlush); [discriminate|]. reflexivity.
Qed.

Lemma lock_after_inside (held : bool) (t rest : list io_event) :
  ~ In Acquire t -> ~ In Release t ->
  lock_after held (t ++ rest) = lock_after held rest.
Proof.
  induction t as [|ev t IH]; intros A R; [reflexivity|].
  cbn [app]. destruct ev; cbn [lock_after];
    try (apply IH; intros H; [apply A | apply R]; now right).
  - exfalso. apply A. now left.
  - exfalso. apply R. now left.
Qed.

(** X7. Any number of calls of [emit], one after the other, with any
    failures in any of them, take the lock only when it is free and leave
    it free: a call that failed never makes a later call wait for a lock
    that nobody will release. *)
Theorem lock_is_free_after_every_emit (calls : list emit_call) :
  lock_after false (flat_map (fun c => effects (run_call c)) calls) = Some false.
Proof.
  induction calls as [|c calls IH]; [reflexivity|].
  cbn [flat_map]. unfold run_call at 1.
  destruct (emit_bracket (call_faults c) (call_handler c) (call_asctime c)
              (call_record c)) as (inside & E & A & R).
  rewrite E. cbn [app lock_after]. rewrite <- app_assoc.
  rewrite (lock_after_inside true inside _ A R). cbn [app lock_after].
  exact IH.
Qed.

End HandlerMore.

(** ** More on the console handler *)

Module LoggingMore.
Import Py Exn Eff Resources Handler Logging More Kwargs StrFacts.
Import ResourcesFacts ResourcesMore HandlerFacts.

Section WithJson.

Variable pyobj : Type.
Variable json_dumps : list (string * pyobj) -> outcome string.

Lemma format_resources_empty (r : Resources.resources) :
  (format_resources r =? "")%string = all_internal r.
Proof.
  rewrite format_resources_visible, all_internal_visible.
  destruct (visible_pairs r) eqn:V; [reflexivity|].
  apply String.eqb_neq. intros H. rewrite <- V in H.
  apply comma_joined_pairs_empty in H. congruence.
Qed.

(** The summary, line by line. *)
Lemma job_info_lines_shape (self : Logger pyobj) (j : job) :
  job_info_lines self j
  = (header_of j
     :: line_if (nonempty (input j)) (detail "input" (join ", " (input j)))
     ++ line_if (nonempty (output j)) (detail "output" (join ", " (output j)))
     ++ line_if (is_not_None (log j)) (detail "log" (str (log j)))
     ++ line_if (printreason self && is_not_None (reason j))
          (detail "reason" (str (reason j)))
     ++ line_if (neb (priority j) (PyInt 0)) (detail "priority" (str (priority j)))
     ++ line_if (neb (threads j) (PyInt 1)) (detail "threads" (str (threads j)))
     ++ line_if (negb (all_internal (resources j)))
          (detail "resources" (format_resources (resources j))))%list.
Proof.
  unfold job_info_lines, format_item, line_if, header_of, detail.
  rewrite format_resources_empty. cbn [flat_map fst snd app].
  rewrite <- !LoggingFacts.neb_None.
  destruct (printreason self); cbn [app flat_map fst snd andb];
    destruct (nonempty (input j)), (nonempty (output j)), (neb (log j) PyNone),
      (neb (reason j) PyNone), (neb (priority j) (PyInt 0)),
      (neb (threads j) (PyInt 1)), (negb (all_internal (resources j)));
    reflexivity.
Qed.

Ltac line_cases self j :=
  rewrite (job_info_lines_shape self j);
  unfold line_if, has_line, header_of, detail;
  destruct (truthy (local j)), (nonempty (input j)), (nonempty (output j)),
    (is_not_None (log j)), (printreason self && is_not_None (reason j)),
    (neb (priority j) (PyInt 0)), (neb (threads j) (PyInt 1)),
    (negb (all_internal (resources j)));
  cbn; rewrite ?prefix_empty; reflexivity.

(** X8. The other detail lines of a job summary: an [input] and an
    [output] line exactly when the list is not empty, a [log] line exactly
    when [log] is not [None], and a [resources] line exactly when some
    resource other than [_cores] and [_nodes] is given. *)
Theorem job_summary_other_lines (self : Logger pyobj) (j : job) :
  has_line "input" (job_info_lines self j) = nonempty (input j)
  /\ has_line "output" (job_info_lines self j) = nonempty (output j)
  /\ has_line "log" (job_info_lines self j) = is_not_None (log j)
  /\ has_line "resources" (job_info_lines self j)
     = negb (all_internal (resources j)).
Proof.
  split; [line_cases self j|]. split; [line_cases self j|].
  split; line_cases self j.
Qed.

(** X9. The shape of a job summary: the first line is the header, which
    does not start with a tab; every other line
    starts with a tab; and there are as many lines after the header as
    conditions hold, eight lines at most. *)
Theorem job_summary_shape (self : Logger pyobj) (j : job) :
  hd "" (job_info_lines self j) = header_of j
  /\ String.prefix TAB (hd "" (job_info_lines self j)) = false
  /\ Forall (fun line => String.prefix TAB line = true)
            (tl (job_info_lines self j))
  /\ List.length (job_info_lines self j)
     = (1 + count (nonempty (input j)) + count (nonempty (output j))
        + count (is_not_None (log j))
        + count (printreason self && is_not_None (reason j))
        + count (neb (priority j) (PyInt 0)) + count (neb (threads j) (PyInt 1))
        + count (negb (all_internal (resources j))))%nat
  /\ (List.length (job_info_lines self j) <= 8)%nat.
Proof.
  rewrite (job_info_lines_shape self j). unfold line_if, count.
  cbn [hd tl]. split; [reflexivity|].
  split; [unfold header_of; destruct (truthy (local j)); reflexivity|].
  destruct (nonempty (input j)), (nonempty (output j)),
    (is_not_None (log j)), (printreason self && is_not_None (reason j)),
    (neb (priority j) (PyInt 0)), (neb (threads j) (PyInt 1)),
    (negb (all_internal (resources j)));
    cbn [app List.length]; (split; [repeat constructor | split; [reflexivity | lia]]).
Qed.

(** What one enabled call puts on the stream. *)
Lemma render_one (self : Logger pyobj) (h : ColorizingStreamHandler)
    (asctime : string) (c : logcall) :
  stream_handler self = Some h ->
  render self asctime [c]
  = if enabled self c
    then decorate h asctime (make_record c) ++ terminator h
    else "".
Proof.
  intros H. unfold render. rewrite H. cbn [filter].
  destruct (enabled self c); [|reflexivity].
  cbn. now rewrite !append_nil_r.
Qed.

(** X10. From an event to the stream, after [setup_logger]: an [info],
    [resources_info] or [run_info] message is written as a [WARNING]
    record and an [error] message as an [ERROR] record, each decorated by
    the handler that [setup_logger] built and followed by a newline,
    whatever the settings; a [debug] message is written, as a [DEBUG]
    record, only when [debug] was asked for, and leaves the stream
    untouched otherwise. *)
Theorem plain_events_on_the_stream (logger : Logger pyobj)
    (platform_system : string) (stderr stdout_stream : Stream)
    (handler_arg : option (event pyobj -> M logcall unit))
    (quiet_arg printshellcmds_arg printreason_arg nocolor_arg stdout_arg
       debug_arg timestamp_arg : bool)
    (asctime text : string) :
  let self := setup_logger logger platform_system stderr stdout_stream
                handler_arg quiet_arg printshellcmds_arg printreason_arg
                nocolor_arg stdout_arg debug_arg timestamp_arg in
  let h := init platform_system nocolor_arg
             (if stdout_arg then stdout_stream else stderr) timestamp_arg in
  render self asctime (effects (console_handler json_dumps self (info text)))
  = decorate h asctime {| levelname := "WARNING"; message := text |} ++ NL
  /\ render self asctime
       (effects (console_handler json_dumps self (resources_info text)))
     = decorate h asctime {| levelname := "WARNING"; message := text |} ++ NL
  /\ render self asctime
       (effects (console_handler json_dumps self (run_info text)))
     = decorate h asctime {| levelname := "WARNING"; message := text |} ++ NL
  /\ render self asctime (effects (console_handler json_dumps self (error text)))
     = decorate h asctime {| levelname := "ERROR"; message := text |} ++ NL
  /\ render self asctime (effects (console_handler json_dumps self (debug text)))
     = if debug_arg
       then decorate h asctime {| levelname := "DEBUG"; message := text |} ++ NL
       else "".
Proof.
  cbn zeta.
  set (self := setup_logger logger platform_system stderr stdout_stream
                 handler_arg quiet_arg printshellcmds_arg printreason_arg
                 nocolor_arg stdout_arg debug_arg timestamp_arg).
  set (h := init platform_system nocolor_arg
              (if stdout_arg then stdout_stream else stderr) timestamp_arg).
  assert (H : stream_handler self = Some h) by (destruct handler_arg; reflexivity).
  assert (L : level self = Some (if debug_arg then DEBUG else INFO))
    by (destruct handler_arg; reflexivity).
  cbn [console_handler effects tell fst].
  rewrite !(render_one self h asctime _ H).
  unfold enabled, effective_level. rewrite L.
  destruct debug_arg; repeat split.
Qed.

(** X11. A progress event with [total == 0] raises [ZeroDivisionError]
    when [quiet] is off, whatever [done] is, and nothing is logged. *)
Theorem progress_with_zero_total (self : Logger pyobj) (done : Z) :
  quiet self = Some false ->
  console_handler json_dumps self (progress done 0)
  = ([], Raised (Builtin ZeroDivisionError)).
Proof.
  intros Q. unfold console_handler, get_quiet, bind, lift. rewrite Q.
  reflexivity.
Qed.

(** X12. When every key is present, the handler on the dictionary does
    what the handler on the typed event does: the typed event loses
    nothing but the absent keys. *)
Theorem kwargs_refine_job_info (self : Logger pyobj) (j : job) :
  console_job_info self (kwargs_of j)
  = console_handler json_dumps self (job_info j).
Proof.
  assert (G : job_info_gen self (kwargs_of j)
              = ([], Returned (job_info_lines self j))).
  { rewrite (job_info_lines_shape self j).
    unfold job_info_gen, kwargs_of, getitem, bind, ret, format_item, line_if,
      header_of, detail.
    cbn [kw_local kw_name kw_input kw_output kw_log kw_reason kw_priority
           kw_threads kw_resources fst snd app].
    rewrite format_resources_empty, <- !LoggingFacts.neb_None.
    destruct (printreason self); cbn [fst snd app andb];
      destruct (nonempty (input j)), (nonempty (output j)),
        (neb (log j) PyNone), (neb (reason j) PyNone),
        (neb (priority j) (PyInt 0)), (neb (threads j) (PyInt 1)),
        (negb (all_internal (resources j))); reflexivity. }
  unfold console_job_info, console_handler. rewrite G.
  unfold get_quiet, kwargs_of.
  destruct (quiet self) as [[|]|], (printshellcmds self);
    cbv [bind ret tell raise getitem kw_msg kw_shellcmd fst snd negb app andb];
    destruct (is_not_None (msg j)), (truthy (shellcmd j)); reflexivity.
Qed.

Lemma job_info_gen_missing (self : Logger pyobj) (kw : job_kwargs) :
  summary_keys_present self kw = false ->
  job_info_gen self kw = ([], Raised (Builtin KeyError)).
Proof.
  unfold summary_keys_present, job_info_gen, getitem, bind, ret, raise.
  destruct (kw_local kw); [|reflexivity]. cbn.
  destruct (kw_name kw); [|reflexivity]. cbn.
  destruct (kw_input kw); [|reflexivity]. cbn.
  destruct (kw_output kw); [|reflexivity]. cbn.
  destruct (kw_log kw); [|reflexivity]. cbn.
  destruct (printreason self), (kw_reason kw), (kw_priority kw),
    (kw_threads kw), (kw_resources kw); cbn; intros H;
    try reflexivity; discriminate.
Qed.

(** X13. With [quiet] off and no [msg] override, a [job_info] call that
    lacks a key of the summary ([reason] counts only under [printreason])
    raises [KeyError] and logs nothing: not the part of the summary it
    could have built, and not the shell command either. *)
Theorem job_info_missing_key (self : Logger pyobj) (kw : job_kwargs) :
  quiet self = Some false ->
  kw_msg kw = Some PyNone ->
  summary_keys_present self kw = false ->
  console_job_info self kw = ([], Raised (Builtin KeyError)).
Proof.
  intros Q M K. unfold console_job_info, get_quiet, bind, getitem, ret.
  rewrite Q, M. cbn [fst snd negb is_not_None app].
  unfold bind. rewrite (job_info_gen_missing self kw K). reflexivity.
Qed.

(** X14. The keys [job_info] does not need.  With [quiet] on and
    [printshellcmds] off it reads no key at all and succeeds on any
    dictionary, even an empty one; with [quiet] off and [printshellcmds]
    off, a [msg] that is not [None] is all it reads: the message is
    logged at [INFO] whatever else is given or missing. *)
Theorem job_info_unread_keys (self : Logger pyobj) (kw : job_kwargs) :
  printshellcmds self = false ->
  (quiet self = Some true -> console_job_info self kw = ([], Returned tt))
  /\ (forall m : pyval,
        quiet self = Some false -> kw_msg kw = Some m -> is_not_None m = true ->
        console_job_info self kw = ([(INFO, str m)], Returned tt)).
Proof.
  intros P. unfold console_job_info, get_quiet, bind, getitem, ret, tell.
  rewrite P. split.
  - intros ->. reflexivity.
  - intros m -> -> N. cbn. rewrite N. reflexivity.
Qed.

(** X15. [Logger.progress] on two integers is the progress event of the
    typed model; called with a [None] (its default) or a string in either
    place, it raises [TypeError] when [quiet] is off, before anything is
    logged, and does nothing when [quiet] is on. *)
Theorem Logger_progress_arguments (self : Logger pyobj) :
  (forall done total : Z,
      Logger_progress self (PyInt done) (PyInt total)
      = console_handler json_dumps self (progress done total))
  /\ (forall done total : pyval,
        quiet self = Some false ->
        as_int done = None \/ as_int total = None ->
        Logger_progress self done total = ([], Raised (Builtin TypeError)))
  /\ (forall done total : pyval,
        quiet self = Some true ->
        Logger_progress self done total = ([], Returned tt)).
Proof.
  split; [|split].
  - intros done total. reflexivity.
  - intros done total Q H. unfold Logger_progress, get_quiet, bind, lift.
    rewrite Q. cbn [fst snd negb ret]. unfold truediv_val.
    destruct H as [-> | ->]; [reflexivity|].
    destruct (as_int done); reflexivity.
  - intros done total Q. unfold Logger_progress, get_quiet, bind. rewrite Q.
    reflexivity.
Qed.

(** X16. Calling [setup_logger] again forgets the first call, except for
    a custom handler: the logger is the one a single call with the second
    arguments gives, with the first handler when the second call names
    none.  A handler set once is therefore still the one that receives
    the events after a later [setup_logger(handler=None)]. *)
Theorem setup_logger_twice (logger : Logger pyobj)
    (sys1 sys2 : string) (err1 out1 err2 out2 : Stream)
    (h1 h2 : option (event pyobj -> M logcall unit))
    (q1 p1 r1 n1 o1 d1 t1 q2 p2 r2 n2 o2 d2 t2 : bool) :
  setup_logger (setup_logger logger sys1 err1 out1 h1 q1 p1 r1 n1 o1 d1 t1)
    sys2 err2 out2 h2 q2 p2 r2 n2 o2 d2 t2
  = setup_logger logger sys2 err2 out2
      (match h2 with Some _ => h2 | None => h1 end) q2 p2 r2 n2 o2 d2 t2
  /\ (forall (h : event pyobj -> M logcall unit) (m : event pyobj),
        h1 = Some h -> h2 = None ->
        handle json_dumps
          (setup_logger (setup_logger logger sys1 err1 out1 h1 q1 p1 r1 n1 o1 d1 t1)
             sys2 err2 out2 h2 q2 p2 r2 n2 o2 d2 t2) m
        = h m).
Proof.
  split.
  - destruct h1, h2; reflexivity.
  - intros h m -> ->. reflexivity.
Qed.

End WithJson.

(** A call with nothing but [msg], and another with an empty dictionary. *)
Lemma job_info_unread_keys_witness :
  printshellcmds
    (@setup_logger unit Logger_init "Linux" {| isatty := Some true |}
       {| isatty := Some true |} None true false false false false false false)
  = false
  /\ console_job_info
       (@setup_logger unit Logger_init "Linux" {| isatty := Some true |}
          {| isatty := Some true |} None true false false false false false false)
       {| kw_name := None; kw_local := None; kw_input := None;
          kw_output := None; kw_log := None; kw_reason := None;
          kw_priority := None; kw_threads := None; kw_resources := None;
          kw_shellcmd := None; kw_msg := None |}
     = ([], Returned tt).
Proof.
  split; [reflexivity|].
  apply (job_info_unread_keys unit
           (setup_logger Logger_init "Linux" {| isatty := Some true |}
              {| isatty := Some true |} None true false false false false
              false false)
           {| kw_name := None; kw_local := None; kw_input := None;
              kw_output := None; kw_log := None; kw_reason := None;
              kw_priority := None; kw_threads := None; kw_resources := None;
              kw_shellcmd := None; kw_msg := None |});
    reflexivity.
Defined.

(** A summary asked for without [resources], with a shell command to show. *)
Lemma job_info_missing_key_witness :
  quiet (@setup_logger unit Logger_init "Linux" {| isatty := Some true |}
           {| isatty := Some true |} None false true false false false false
           false) = Some false
  /\ console_job_info
       (@setup_logger unit Logger_init "Linux" {| isatty := Some true |}
          {| isatty := Some true |} None false true false false false false false)
       {| kw_name := Some (PyStr "all"); kw_local := Some (PyBool false);
          kw_input := Some ["a"]; kw_output := Some ["b"];
          kw_log := Some PyNone; kw_reason := None;
          kw_priority := Some (PyInt 0); kw_threads := Some (PyInt 1);
          kw_resources := None;
          kw_shellcmd := Some (PyStr "cp a b"); kw_msg := Some PyNone |}
     = ([], Raised (Builtin KeyError)).
Proof.
  split; [reflexivity|].
  apply (job_info_missing_key unit
           (setup_logger Logger_init "Linux" {| isatty := Some true |}
              {| isatty := Some true |} None false true false false false
              false false)); reflexivity.
Defined.

(** A progress event of a run without steps. *)
Lemma progress_with_zero_total_witness :
  quiet (@setup_logger unit Logger_init "Linux" {| isatty := Some true |}
           {| isatty := Some true |} None false false false false false false
           false) = Some false
  /\ console_handler (fun _ : list (string * unit) => Returned "{}")
       (setup_logger Logger_init "Linux" {| isatty := Some true |}
          {| isatty := Some true |} None false false false false false false
          false)
       (progress 0 0)
     = ([], Raised (Builtin ZeroDivisionError)).
Proof.
  split; [reflexivity|].
  apply (progress_with_zero_total unit (fun _ => Returned "{}")
           (setup_logger Logger_init "Linux" {| isatty := Some true |}
              {| isatty := Some true |} None false false false false false
              false false) 0).
  reflexivity.
Defined.

End LoggingMore.

(** ** The engine's handlers *)

Module EngineFacts.
Import Engine.

Lemma removeHandler_single (h : nat) : removeHandler [h] h = [].
Proof. unfold removeHandler. cbn. now rewrite Nat.eqb_refl. Qed.

Lemma set_stream_handler_attached (self : attachment) (h : nat) :
  attached self ->
  attached (set_stream_handler self h) /\ current (set_stream_handler self h) = Some h.
Proof.
  unfold attached, set_stream_handler. intros A. cbn [engine_handlers current].
  split; [|reflexivity]. rewrite A.
  destruct (current self) as [old|]; [rewrite removeHandler_single|]; reflexivity.
Qed.

(** X17. However many stream handlers are set one after the other on a
    fresh logger, and even if one is set twice, the engine ends with one
    handler attached, the last one set: every record is emitted once, by
    that handler, and earlier streams receive nothing more. *)
Theorem only_the_last_handler_is_attached (earlier : list nat) (h : nat) :
  engine_handlers (fold_left set_stream_handler (earlier ++ [h]) fresh) = [h]
  /\ current (fold_left set_stream_handler (earlier ++ [h]) fresh) = Some h.
Proof.
  assert (G : forall hs self, attached self ->
                attached (fold_left set_stream_handler hs self)).
  { induction hs as [|x hs IH]; intros self A; [exact A|].
    cbn [fold_left]. apply IH. now apply set_stream_handler_attached. }
  rewrite fold_left_app. cbn [fold_left].
  destruct (set_stream_handler_attached
              (fold_left set_stream_handler earlier fresh) h) as [A C].
  { apply G. reflexivity. }
  split; [|exact C]. unfold attached in A. now rewrite C in A.
Qed.

End EngineFacts.

(** ** The lock is given back *)

Module LivenessFacts.
Import Exn Handler Threads Liveness ThreadsFacts.

Lemma step_leaving (w : world) (i : nat) (f : option exn) (r : option exn) :
  at_pc (threads w i) = Leaving r -> lock (step (i, f) w) = None.
Proof. intros H. unfold step. cbn [fst snd]. rewrite H. reflexivity. Qed.

(** A step of the thread inside [emit] that does not leave the block
    keeps it inside, keeps the lock, and shortens its way out. *)
Lemma step_inside (w : world) (i : nat) (f : option exn) :
  inside (at_pc (threads w i)) = true ->
  (forall r, at_pc (threads w i) <> Leaving r) ->
  inside (at_pc (threads (step (i, f) w) i)) = true
  /\ lock (step (i, f) w) = lock w
  /\ (steps_left (threads (step (i, f) w) i) < steps_left (threads w i))%nat.
Proof.
  intros N L. unfold step. cbn [fst snd].
  destruct (at_pc (threads w i)) as [| |rest pending| |r] eqn:P.
  - discriminate.
  - destruct f as [e|]; [|destruct (todo (threads w i)) as [|em more] eqn:T];
      rewrite move_same; unfold steps_left; cbn [at_pc todo lock move inside];
      rewrite ?P, ?T; cbn [pending_steps fold_right];
      repeat split; try lia.
    destruct (todo (threads w i)); lia.
  - destruct f as [e|];
      [|destruct rest as [|ch rest]; [destruct pending as [|next pending]|]];
      unfold steps_left; cbn [lock move write_char];
      rewrite ?move_same; cbn [threads write_char];
      rewrite ?set_thread_same; cbn [at_pc inside];
      rewrite ?P; unfold pending_steps; cbn [fold_right String.length];
      repeat split; lia.
  - destruct f as [e|]; unfold steps_left; cbn [lock move flush];
      rewrite ?move_same; cbn [threads flush];
      rewrite ?set_thread_same; cbn [at_pc inside];
      rewrite ?P; repeat split; lia.
  - now elim (L r).
Qed.

Lemma inside_steps_left (t : thread) :
  inside (at_pc t) = true -> (0 < steps_left t)%nat.
Proof.
  unfold steps_left. destruct (at_pc t); [discriminate| | | |]; intros _;
    try lia. destruct (todo t); lia.
Qed.

Lemma released_within (i : nat) (n : nat) :
  forall (w : world) (fs : list (option exn)),
    inside (at_pc (threads w i)) = true ->
    (steps_left (threads w i) <= n)%nat ->
    (n <= List.length fs)%nat ->
    exists k : nat,
      (0 < k <= n)%nat /\ lock (run (alone i (firstn k fs)) w) = None.
Proof.
  induction n as [|n IH]; intros w fs N Hs F.
  - pose proof (inside_steps_left _ N). lia.
  - destruct fs as [|f fs]; [cbn in F; lia|].
    destruct (at_pc (threads w i)) as [| |rest pending| |r] eqn:P;
      try (destruct (step_inside w i f) as (N' & L' & Hs');
           [now rewrite P | rewrite P; discriminate |];
           destruct (IH (step (i, f) w) fs N') as (k & K & R);
           [lia | cbn in F; lia |];
           exists (S k); split; [lia | exact R]).
    exists 1%nat. split; [lia|]. cbn. now apply (step_leaving w i f r).
Qed.

(** X18. The lock is given back.  In every world the threads can reach,
    under any schedule and with operations failing at any point, the
    thread that holds [_output_lock] is inside [emit] and needs no other
    thread to go on: after at most [steps_left] steps of its own (for an
    emission just begun, the characters of the message and of the
    terminator and five more), the lock is free, and a failure in any of
    these steps only brings that moment closer. *)
Theorem lock_is_given_back (prog : nat -> list emission)
    (schedule : list choice) (i : nat) (fs : list (option exn)) :
  lock (run schedule (start prog)) = Some i ->
  (steps_left (threads (run schedule (start prog)) i) <= List.length fs)%nat ->
  inside (at_pc (threads (run schedule (start prog)) i)) = true
  /\ exists k : nat,
       (0 < k <= steps_left (threads (run schedule (start prog)) i))%nat
       /\ lock (run (alone i (firstn k fs)) (run schedule (start prog))) = None.
Proof.
  intros L F.
  destruct (run_inv prog schedule true (start prog) [] "" (Inv_start prog)
              (Flushes_start prog))
    as (past & cur & I & _).
  destruct (inv_pc_holder prog _ _ _ _ i I L) as [N _].
  split; [exact N|].
  apply (released_within i _ _ fs N); [lia | exact F].
Qed.

(** Thread 0 has written two characters of ["ab"] when thread 1 asks
    for the lock; six steps of thread 0 later the lock is free. *)
Lemma lock_is_given_back_witness :
  exists k : nat,
    (0 < k <= 6)%nat
    /\ lock
         (run (alone 0 (firstn k (repeat None 6)))
            (run [(0%nat, None); (0%nat, None); (0%nat, None); (1%nat, None)]
               (start (fun i =>
                         [{| em_handler := init "Linux" true
                                             {| isatty := Some false |} false;
                             em_asctime := "";
                             em_record := {| levelname := "INFO";
                                             message := "ab" |} |}]))))
       = None.
Proof.
  apply (lock_is_given_back
           (fun i => [{| em_handler := init "Linux" true
                                         {| isatty := Some false |} false;
                         em_asctime := "";
                         em_record := {| levelname := "INFO";
                                         message := "ab" |} |}])
           [(0%nat, None); (0%nat, None); (0%nat, None); (1%nat, None)]
           0%nat (repeat None 6)); vm_compute; [reflexivity | lia].
Defined.

End LivenessFacts.

(** ** The percentage of a progress line *)

Module ProgressMore.
Import Py Exn Eff Handler Logging Float StrFacts ProgressFacts.

Lemma progress_call (pyobj : Type)
    (json_dumps : list (string * pyobj) -> outcome string)
    (self : Logger pyobj) (done total : Z) (text : string) :
  quiet self = Some false ->
  progress_text done total = Returned text ->
  console_handler json_dumps self (progress done total)
  = ([(INFO, text)], Returned tt).
Proof.
  intros Q E. unfold console_handler, get_quiet, bind, lift, tell, ret.
  rewrite Q, E. reflexivity.
Qed.

Section WithJson.

Variable pyobj : Type.
Variable json_dumps : list (string * pyobj) -> outcome string.

(** X19. The percentage of a progress line, for [0 <= done <= total],
    [0 < total <= 2^44], lies between 0 and 100.  It is 100 when the run
    is complete, and already from 99.5% on: the line says 100% whenever
    [done / total > 0.995], and less than 100% whenever
    [done / total < 0.995].  At the other end it is 0 whenever
    [done / total < 0.005] and positive whenever [done / total > 0.005]. *)
Theorem progress_percent_range (self : Logger pyobj) (done total : Z) :
  quiet self = Some false ->
  0 <= done <= total ->
  0 < total <= 2 ^ 44 ->
  exists p : Z,
    console_handler json_dumps self (progress done total)
    = ([(INFO, str_int done ++ " of " ++ str_int total ++ " steps ("
               ++ str_int p ++ "%) done")],
       Returned tt)
    /\ 0 <= p <= 100
    /\ (done = total -> p = 100)
    /\ (199 * total < 200 * done -> p = 100)
    /\ (200 * done < 199 * total -> p < 100)
    /\ (200 * done < total -> p = 0)
    /\ (total < 200 * done -> 0 < p).
Proof.
  intros Q Hd Ht.
  destruct (progress_text_nearest done total Hd Ht) as (p & E & Hp).
  exists p. split; [exact (progress_call _ json_dumps self _ _ _ Q E)|].
  assert (A : - total <= 2 * (p * total - 100 * done) <= total) by lia.
  clear Hp E.
  assert (P0 : 0 <= p) by nia.
  assert (P100 : p <= 100) by nia.
  repeat split; try assumption; intros H; nia.
Qed.

(** X20. The percentage never goes back: of two progress lines with the
    same total, the one with more steps done shows at least the
    percentage of the other. *)
Theorem progress_percent_monotone (self : Logger pyobj) (done1 done2 total : Z) :
  quiet self = Some false ->
  0 <= done1 <= done2 ->
  done2 <= total ->
  0 < total <= 2 ^ 44 ->
  exists p1 p2 : Z,
    console_handler json_dumps self (progress done1 total)
    = ([(INFO, str_int done1 ++ " of " ++ str_int total ++ " steps ("
               ++ str_int p1 ++ "%) done")],
       Returned tt)
    /\ console_handler json_dumps self (progress done2 total)
       = ([(INFO, str_int done2 ++ " of " ++ str_int total ++ " steps ("
                  ++ str_int p2 ++ "%) done")],
          Returned tt)
    /\ p1 <= p2.
Proof.
  intros Q H1 H2 Ht.
  destruct (progress_text_nearest done1 total ltac:(lia) Ht) as (p1 & E1 & B1).
  destruct (Z.eq_dec done1 done2) as [<-|D].
  - exists p1, p1. pose proof (progress_call _ json_dumps self _ _ _ Q E1).
    repeat split; [assumption | assumption | lia].
  - destruct (progress_text_nearest done2 total ltac:(lia) Ht) as (p2 & E2 & B2).
    exists p1, p2.
    split; [exact (progress_call _ json_dumps self _ _ _ Q E1)|].
    split; [exact (progress_call _ json_dumps self _ _ _ Q E2)|].
    assert (A1 : 2 * (p1 * total - 100 * done1) <= total) by lia.
    assert (A2 : - total <= 2 * (p2 * total - 100 * done2)) by lia.
    assert (A : (p1 - p2) * total < 1 * total) by nia.
    nia.
Qed.

End WithJson.

(** 199 of 200 steps: the line says 100% with a step to go. *)
Lemma progress_percent_range_witness :
  exists p : Z,
    console_handler (fun _ : list (string * unit) => Returned "{}")
      (setup_logger Logger_init "Linux" {| isatty := Some true |}
         {| isatty := Some true |} None false false false false false false
         false)
      (progress 199 200)
    = ([(INFO, str_int 199 ++ " of " ++ str_int 200 ++ " steps ("
               ++ str_int p ++ "%) done")],
       Returned tt)
    /\ 0 <= p <= 100
    /\ (199 = 200 -> p = 100)
    /\ (199 * 200 < 200 * 199 -> p = 100)
    /\ (200 * 199 < 199 * 200 -> p < 100)
    /\ (200 * 199 < 200 -> p = 0)
    /\ (200 < 200 * 199 -> 0 < p).
Proof.
  apply (progress_percent_range unit (fun _ => Returned "{}")
           (setup_logger Logger_init "Linux" {| isatty := Some true |}
              {| isatty := Some true |} None false false false false false
              false false) 199 200); [reflexivity | lia | cbn; lia].
Defined.

(** 1 of 3 and 2 of 3. *)
Lemma progress_percent_monotone_witness :
  exists p1 p2 : Z,
    console_handler (fun _ : list (string * unit) => Returned "{}")
      (setup_logger Logger_init "Linux" {| isatty := Some true |}
         {| isatty := Some true |} None false false false false false false
         false)
      (progress 1 3)
    = ([(INFO, str_int 1 ++ " of " ++ str_int 3 ++ " steps ("
               ++ str_int p1 ++ "%) done")],
       Returned tt)
    /\ console_handler (fun _ : list (string * unit) => Returned "{}")
         (setup_logger Logger_init "Linux" {| isatty := Some true |}
            {| isatty := Some true |} None false false false false false
            false false)
         (progress 2 3)
       = ([(INFO, str_int 2 ++ " of " ++ str_int 3 ++ " steps ("
                  ++ str_int p2 ++ "%) done")],
          Returned tt)
    /\ p1 <= p2.
Proof.
  apply (progress_percent_monotone unit (fun _ => Returned "{}")
           (setup_logger Logger_init "Linux" {| isatty := Some true |}
              {| isatty := Some true |} None false false false false false
              false false) 1 2 3); [reflexivity | lia | lia | cbn; lia].
Defined.

End ProgressMore.
